(** * libnm-util/nm-connection.c: the connection container, its registry,
      verification, comparison, secrets and (de)serialization.

    The development is a shallow embedding.  GLib's [GHashTable] is an
    association list with unique keys whose order is the iteration order;
    the process-wide [registered_settings] table and the per-connection
    [settings] table are passed explicitly.  The per-kind operations of
    nm-setting.c and of the nm-setting-*.c files are not part of
    nm-connection.c: they are the fields of the class [NMSettingClass]. *)

From Stdlib Require Import List String NArith ZArith Bool Lia Permutation
  Sorted.
Import ListNotations.
Local Open Scope string_scope.
Local Open Scope N_scope.

Set Implicit Arguments.
Set Warnings "-register-all".
Set Warnings "-automation".
Set Warnings "-default".

(** ** GLib: hash tables and singly linked lists *)

Module GLib.

(** Key equality of a table: [g_str_equal] for string keys; type names
    (the keys of a connection's [settings]) are in bijection with the
    [GType]s they name, so those tables are keyed by [GType]. *)
Class KeyEq (K : Type) := {
  key_eqb : K -> K -> bool;
  key_eqb_spec : forall a b, key_eqb a b = true <-> a = b
}.

#[export] Instance g_str_equal : KeyEq string :=
  {| key_eqb := String.eqb; key_eqb_spec := String.eqb_eq |}.

#[export] Instance g_type_equal : KeyEq N :=
  {| key_eqb := N.eqb; key_eqb_spec := N.eqb_eq |}.

Section HashTable.
Context {K V : Type} `{KeyEq K}.

Definition GHashTable := list (K * V).

Definition g_hash_table_new : GHashTable := [].

Fixpoint g_hash_table_lookup (h : GHashTable) (k : K) : option V :=
  match h with
  | [] => None
  | (k', v) :: t => if key_eqb k' k then Some v else g_hash_table_lookup t k
  end.

(** An existing key keeps its place and gets the new value; a new key
    goes to the end. *)
Fixpoint g_hash_table_insert (h : GHashTable) (k : K) (v : V) : GHashTable :=
  match h with
  | [] => [(k, v)]
  | (k', v') :: t =>
      if key_eqb k' k then (k', v) :: t
      else (k', v') :: g_hash_table_insert t k v
  end.

Definition g_hash_table_remove (h : GHashTable) (k : K) : GHashTable :=
  filter (fun kv => negb (key_eqb (fst kv) k)) h.

Definition g_hash_table_remove_all (h : GHashTable) : GHashTable := [].

Definition g_hash_table_size (h : GHashTable) : nat := List.length h.

Definition keys (h : GHashTable) : list K := map fst h.
Definition values (h : GHashTable) : list V := map snd h.
End HashTable.

Arguments GHashTable : clear implicits.

(** [g_slist_insert_sorted]: the new element is linked in before the first
    element that does not compare smaller than it. *)
Fixpoint g_slist_insert_sorted {A : Type} (l : list A) (data : A)
    (func : A -> A -> Z) : list A :=
  match l with
  | [] => [data]
  | x :: t =>
      if (0 <? func data x)%Z then x :: g_slist_insert_sorted t data func
      else data :: x :: t
  end.

End GLib.
Import GLib.

(** ** Basic types *)

Definition GType := N.
Definition GQuark := N.
Definition G_TYPE_INVALID : GType := 0.
Definition G_TYPE_NONE : GType := 4.
Definition G_MAXUINT32 : N := 4294967295.

Definition NM_SETTING_CONNECTION_SETTING_NAME : string := "connection".
Definition NM_SETTING_CONNECTION_PERMISSIONS : string := "permissions".

(** ** The registry of setting kinds *)

Record SettingInfo := {
  type : GType;
  priority : N;
  error_quark : GQuark
}.

Definition Registry := GHashTable string SettingInfo.

(** How a call of [_nm_register_setting] ends: it returns normally, it
    returns from a failed [g_return_if_fail] (GLib logs a critical warning
    and the function returns), or a failed [g_assert_cmpstr] aborts the
    process. *)
Inductive RegisterOutcome :=
| Registered (reg : Registry)
| ReturnIfFail (reg : Registry)
| AssertionAbort.

Definition _nm_register_setting (registered_settings : Registry)
    (name : string) (type : GType) (priority : N) (error_quark : GQuark)
    : RegisterOutcome :=
  if type =? G_TYPE_INVALID then ReturnIfFail registered_settings
  else if type =? G_TYPE_NONE then ReturnIfFail registered_settings
  else if error_quark =? 0 then ReturnIfFail registered_settings
  else if negb (priority <=? 4) then ReturnIfFail registered_settings
  else
    match g_hash_table_lookup registered_settings name with
    | Some _ => Registered registered_settings
    | None =>
        if (priority =? 0)
           && negb (String.eqb name NM_SETTING_CONNECTION_SETTING_NAME)
        then AssertionAbort
        else Registered
               (g_hash_table_insert registered_settings name
                  {| type := type; priority := priority;
                     error_quark := error_quark |})
    end.

(** The registry after a call that returned. *)
Definition registry_after (o : RegisterOutcome) : option Registry :=
  match o with
  | Registered r | ReturnIfFail r => Some r
  | AssertionAbort => None
  end.

(** Registries a process can hold: the empty table and what registrations
    that returned make of it. *)
Inductive reachable : Registry -> Prop :=
| reachable_new : reachable g_hash_table_new
| reachable_register reg name ty prio quark reg' :
    reachable reg ->
    registry_after (_nm_register_setting reg name ty prio quark) = Some reg' ->
    reachable reg'.

Fixpoint scan_priority (entries : list (string * SettingInfo)) (t : GType)
    : N :=
  match entries with
  | [] => G_MAXUINT32
  | (_, info) :: rest =>
      if t =? type info then priority info else scan_priority rest t
  end.

(** On a miss the function logs a warning and returns [G_TYPE_INVALID];
    the log is not part of the model. *)
Definition nm_connection_lookup_setting_type (registered_settings : Registry)
    (name : string) : GType :=
  match g_hash_table_lookup registered_settings name with
  | Some info => type info
  | None => G_TYPE_INVALID
  end.

Fixpoint nm_connection_lookup_setting_type_by_quark
    (registered_settings : Registry) (q : GQuark) : GType :=
  match registered_settings with
  | [] => G_TYPE_INVALID
  | (_, info) :: rest =>
      if error_quark info =? q then type info
      else nm_connection_lookup_setting_type_by_quark rest q
  end.

(** ** Values, errors and signals *)

Record GValue := {
  G_VALUE_TYPE : GType;
  g_value_contents : list string
}.

(** [G_VALUE_HOLDS]: none of the value types tested in this file has
    subtypes, so holding a type is having it. *)
Definition G_VALUE_HOLDS (v : GValue) (t : GType) : bool := G_VALUE_TYPE v =? t.

Inductive NMConnectionError :=
| NM_CONNECTION_ERROR_UNKNOWN
| NM_CONNECTION_ERROR_CONNECTION_SETTING_NOT_FOUND
| NM_CONNECTION_ERROR_CONNECTION_TYPE_INVALID
| NM_CONNECTION_ERROR_SETTING_NOT_FOUND.

(** A [GError]: the domain and code, and the message.  Errors of a
    setting kind are opaque to the connection. *)
Inductive GError :=
| NM_CONNECTION_ERROR (code : NMConnectionError) (message : string)
| NM_SETTING_ERROR_PROPERTY_TYPE_MISMATCH (message : string)
| SettingKindError (domain : GQuark) (code : Z) (message : string).

(** A [gboolean] result with its [GError **] out-parameter. *)
Inductive gboolean_err :=
| TRUE
| FALSE (error : GError).

Definition succeeded (r : gboolean_err) : bool :=
  match r with TRUE => true | FALSE _ => false end.

Inductive Signal :=
| SECRETS_UPDATED (setting_name : option string)
| SECRETS_CLEARED.

Definition NMSettingCompareFlags := N.
Definition NMSettingHashFlags := N.
Definition NM_SETTING_COMPARE_FLAG_EXACT : NMSettingCompareFlags := 0.
Definition NM_SETTING_HASH_FLAG_ALL : NMSettingHashFlags := 0.

(** A table handed over as [GHashTable *] without element type: an entry
    is a [GValue] or a further table. *)
Inductive gpointer :=
| PValue (v : GValue)
| PHash (entries : list (string * gpointer)).

(** Property name to value; a serialized connection maps setting names to
    such tables. *)
Definition PropHash := GHashTable string GValue.
Definition ConnectionHash := GHashTable string PropHash.

(** Property name to [NMSettingDiffResult] bits, and setting name to that. *)
Definition DiffHash := GHashTable string N.
Definition DiffsHash := GHashTable string DiffHash.

(** ** The setting kinds

    What nm-connection.c calls in nm-setting.c and the nm-setting-*.c
    files, and the [GType]s those files define. *)

Class NMSettingClass (NMSetting : Type) := {
  G_OBJECT_TYPE : NMSetting -> GType;
  nm_setting_get_name : NMSetting -> string;
  nm_setting_verify : NMSetting -> list NMSetting -> gboolean_err;
  nm_setting_compare :
    NMSetting -> NMSetting -> NMSettingCompareFlags -> bool;
  (** the properties [nm_setting_diff] finds different, each with its
      result bits; the second setting may be NULL *)
  nm_setting_diff_properties :
    NMSetting -> option NMSetting -> NMSettingCompareFlags -> bool ->
    list (string * N);
  nm_setting_need_secrets : NMSetting -> option (list string);
  (** the setting after the call, and the result *)
  nm_setting_update_secrets : NMSetting -> gpointer -> NMSetting * gboolean_err;
  (** NULL when the table would be empty *)
  nm_setting_to_hash : NMSetting -> NMSettingHashFlags -> option PropHash;
  nm_setting_new_from_hash : GType -> PropHash -> option NMSetting;
  nm_setting_connection_get_connection_type : NMSetting -> option string;
  NM_TYPE_SETTING_CONNECTION : GType;
  NM_TYPE_SETTING_PPPOE : GType;
  G_TYPE_STRV : GType;
  DBUS_TYPE_G_LIST_OF_STRING : GType
}.

Section Connection.
Context {NMSetting : Type} `{NMSettingClass NMSetting}.

(** [self] is the address of the object: what [a == b] compares. *)
Record NMConnection := {
  self : N;
  settings : GHashTable GType NMSetting;
  path : option string
}.

Definition set_settings (c : NMConnection) (s : GHashTable GType NMSetting)
    : NMConnection :=
  {| self := self c; settings := s; path := path c |}.

Definition _get_setting_priority (registered_settings : Registry)
    (setting : NMSetting) : N :=
  scan_priority registered_settings (G_OBJECT_TYPE setting).

(** [NM_IS_SETTING_PPPOE]: the setting kinds are not derived from. *)
Definition NM_IS_SETTING_PPPOE (setting : NMSetting) : bool :=
  G_OBJECT_TYPE setting =? NM_TYPE_SETTING_PPPOE.

Definition _is_setting_base_type (registered_settings : Registry)
    (setting : NMSetting) : bool :=
  (_get_setting_priority registered_settings setting =? 1)
  || NM_IS_SETTING_PPPOE setting.

Definition nm_connection_new (address : N) : NMConnection :=
  {| self := address; settings := g_hash_table_new; path := None |}.

Definition nm_connection_add_setting (connection : NMConnection)
    (setting : NMSetting) : NMConnection :=
  set_settings connection
    (g_hash_table_insert (settings connection) (G_OBJECT_TYPE setting)
       setting).

Definition nm_connection_remove_setting (connection : NMConnection)
    (setting_type : GType) : NMConnection :=
  set_settings connection
    (g_hash_table_remove (settings connection) setting_type).

Definition nm_connection_get_setting (connection : NMConnection)
    (setting_type : GType) : option NMSetting :=
  g_hash_table_lookup (settings connection) setting_type.

Definition nm_connection_get_setting_by_name
    (registered_settings : Registry) (connection : NMConnection)
    (name : string) : option NMSetting :=
  let type := nm_connection_lookup_setting_type registered_settings name in
  if type =? 0 then None else nm_connection_get_setting connection type.

Definition nm_connection_get_setting_connection
    (connection : NMConnection) : option NMSetting :=
  nm_connection_get_setting connection NM_TYPE_SETTING_CONNECTION.

(** *** Verification *)

(** The loop over the settings: it stops calling [nm_setting_verify] at
    the first failure. *)
Fixpoint verify_settings (l all_settings : list NMSetting) : gboolean_err :=
  match l with
  | [] => TRUE
  | value :: rest =>
      match nm_setting_verify value all_settings with
      | TRUE => verify_settings rest all_settings
      | FALSE e => FALSE e
      end
  end.

Definition nm_connection_verify (registered_settings : Registry)
    (connection : NMConnection) : gboolean_err :=
  match nm_connection_get_setting_connection connection with
  | None =>
      FALSE (NM_CONNECTION_ERROR
               NM_CONNECTION_ERROR_CONNECTION_SETTING_NOT_FOUND
               "connection setting not found")
  | Some s_con =>
      let all_settings := values (settings connection) in
      match verify_settings (values (settings connection)) all_settings with
      | FALSE e => FALSE e
      | TRUE =>
          match nm_setting_connection_get_connection_type s_con with
          | None =>
              FALSE (NM_CONNECTION_ERROR
                       NM_CONNECTION_ERROR_CONNECTION_TYPE_INVALID
                       "connection type missing")
          | Some ctype =>
              match nm_connection_get_setting_by_name registered_settings
                      connection ctype with
              | None =>
                  FALSE (NM_CONNECTION_ERROR
                           NM_CONNECTION_ERROR_CONNECTION_TYPE_INVALID
                           "base setting GType not found")
              | Some base =>
                  if _is_setting_base_type registered_settings base
                  then TRUE
                  else
                    FALSE (NM_CONNECTION_ERROR
                             NM_CONNECTION_ERROR_CONNECTION_TYPE_INVALID
                             ("connection type '" ++ ctype
                              ++ "' is not a base type"))
              end
          end
      end
  end.

(** *** Replacing the settings; deserialization *)

Definition validate_permissions_type (hash : ConnectionHash) : gboolean_err :=
  match g_hash_table_lookup hash NM_SETTING_CONNECTION_SETTING_NAME with
  | Some s_con =>
      match g_hash_table_lookup s_con NM_SETTING_CONNECTION_PERMISSIONS with
      | Some permissions =>
          if negb (G_VALUE_HOLDS permissions G_TYPE_STRV)
             && negb (G_VALUE_HOLDS permissions DBUS_TYPE_G_LIST_OF_STRING)
          then
            FALSE (NM_SETTING_ERROR_PROPERTY_TYPE_MISMATCH
              "Wrong permissions property type; should be a list of strings.")
          else TRUE
      | None => TRUE
      end
  | None => TRUE
  end.

(** One turn of the loop of [hash_to_connection].  The local variable
    [setting] is declared outside the loop and assigned only when the
    name is a registered one: for an unknown name it still holds what the
    previous turn left in it. *)
Definition hash_to_connection_step (registered_settings : Registry)
    (st : NMConnection * option NMSetting)
    (entry : string * PropHash) : NMConnection * option NMSetting :=
  let '(connection, setting) := st in
  let '(setting_name, setting_hash) := entry in
  let type :=
    nm_connection_lookup_setting_type registered_settings setting_name in
  let setting :=
    if type =? 0 then setting
    else nm_setting_new_from_hash type setting_hash in
  match setting with
  | Some s => (nm_connection_add_setting connection s, setting)
  | None => (connection, setting)
  end.

Definition hash_to_connection (registered_settings : Registry)
    (connection : NMConnection) (new : ConnectionHash)
    : NMConnection * gboolean_err :=
  let cleared :=
    set_settings connection (g_hash_table_remove_all (settings connection)) in
  let connection :=
    fst (fold_left (hash_to_connection_step registered_settings) new
           (cleared, None)) in
  (connection, nm_connection_verify registered_settings connection).

Definition nm_connection_replace_settings (registered_settings : Registry)
    (connection : NMConnection) (new_settings : ConnectionHash)
    : NMConnection * gboolean_err :=
  match validate_permissions_type new_settings with
  | FALSE e => (connection, FALSE e)
  | TRUE => hash_to_connection registered_settings connection new_settings
  end.

(** NULL with the error, or the new connection; [address] is where
    [nm_connection_new] allocates it. *)
Definition nm_connection_new_from_hash (registered_settings : Registry)
    (address : N) (hash : ConnectionHash) : NMConnection + GError :=
  match validate_permissions_type hash with
  | FALSE e => inr e
  | TRUE =>
      match hash_to_connection registered_settings
              (nm_connection_new address) hash with
      | (connection, TRUE) => inl connection
      | (_, FALSE e) => inr e
      end
  end.

Definition nm_connection_to_hash (connection : NMConnection)
    (flags : NMSettingHashFlags) : option ConnectionHash :=
  let ret :=
    fold_left
      (fun ret setting =>
         match nm_setting_to_hash setting flags with
         | Some setting_hash =>
             g_hash_table_insert ret (nm_setting_get_name setting)
               setting_hash
         | None => ret
         end)
      (values (settings connection)) g_hash_table_new in
  if (g_hash_table_size ret <? 1)%nat then None else Some ret.

(** *** Comparison *)

Definition nm_connection_compare (a b : option NMConnection)
    (flags : NMSettingCompareFlags) : bool :=
  match a, b with
  | None, None => true
  | None, Some _ | Some _, None => false
  | Some a, Some b =>
      if forallb
           (fun src =>
              match nm_connection_get_setting b (G_OBJECT_TYPE src) with
              | None => false
              | Some cmp => nm_setting_compare src cmp flags
              end)
           (values (settings a))
      then
        if negb (Nat.eqb (g_hash_table_size (settings a))
                   (g_hash_table_size (settings b)))
        then false else true
      else false
  end.

(** *** Differences *)

Definition record_difference (results : DiffHash) (d : string * N)
    : DiffHash :=
  let tmp :=
    match g_hash_table_lookup results (fst d) with
    | Some bits => bits
    | None => 0
    end in
  g_hash_table_insert results (fst d) (N.lor tmp (snd d)).

(** Modelled from the spec: [nm_setting_diff] of nm-setting.c, which is
    not in nm-connection.c.  The setting's diff capability reports
    per-property change flags; they are merged into the entry that exists
    for the setting, and an entry is made only if a real difference
    exists.  The value is [*results] on return; the function returns TRUE
    exactly when that is NULL. *)
Definition nm_setting_diff (a : NMSetting) (b : option NMSetting)
    (flags : NMSettingCompareFlags) (invert_results : bool)
    (results : option DiffHash) : option DiffHash :=
  let table :=
    fold_left record_difference
      (nm_setting_diff_properties a b flags invert_results)
      (match results with Some t => t | None => g_hash_table_new end) in
  match results with
  | Some _ => Some table
  | None => if Nat.eqb (g_hash_table_size table) 0 then None else Some table
  end.

Definition diff_one_setting (b : option NMConnection)
    (flags : NMSettingCompareFlags) (invert_results : bool)
    (diffs : DiffsHash) (a_setting : NMSetting) : DiffsHash :=
  let b_setting :=
    match b with
    | Some b => nm_connection_get_setting b (G_OBJECT_TYPE a_setting)
    | None => None
    end in
  let setting_name := nm_setting_get_name a_setting in
  let results := g_hash_table_lookup diffs setting_name in
  let new_results := match results with Some _ => false | None => true end in
  match nm_setting_diff a_setting b_setting flags invert_results results with
  | Some results' =>
      if new_results then g_hash_table_insert diffs setting_name results'
      else
        (* [results] names the table stored in [diffs]: what
           [nm_setting_diff] wrote to it is seen there *)
        g_hash_table_insert diffs setting_name results'
  | None => diffs
  end.

Definition diff_one_connection (a : NMConnection) (b : option NMConnection)
    (flags : NMSettingCompareFlags) (invert_results : bool)
    (diffs : DiffsHash) : DiffsHash :=
  fold_left (diff_one_setting b flags invert_results)
    (values (settings a)) diffs.

(** The merged table of both scans. *)
Definition merged_diffs (a : NMConnection) (b : option NMConnection)
    (flags : NMSettingCompareFlags) : DiffsHash :=
  let diffs := diff_one_connection a b flags false g_hash_table_new in
  match b with
  | Some b' => diff_one_connection b' (Some a) flags true diffs
  | None => diffs
  end.

(** The return value and [*out_settings]. *)
Definition nm_connection_diff (a : NMConnection) (b : option NMConnection)
    (flags : NMSettingCompareFlags) : bool * option DiffsHash :=
  if match b with Some b' => self a =? self b' | None => false end
  then (true, None)
  else
    let diffs := merged_diffs a b flags in
    let out_settings :=
      if Nat.eqb (g_hash_table_size diffs) 0 then None else Some diffs in
    (match out_settings with Some _ => false | None => true end,
     out_settings).

(** *** Secrets *)

(** The setting found under [name] is an object of the table: its new
    state is the table's entry. *)
Definition setting_written (registered_settings : Registry)
    (connection : NMConnection) (name : string) (setting : NMSetting)
    : NMConnection :=
  set_settings connection
    (g_hash_table_insert (settings connection)
       (nm_connection_lookup_setting_type registered_settings name)
       setting).

Fixpoint update_secrets_all (registered_settings : Registry)
    (connection : NMConnection) (entries : list (string * gpointer))
    : NMConnection * gboolean_err :=
  match entries with
  | [] => (connection, TRUE)
  | (name, tmp) :: rest =>
      match nm_connection_get_setting_by_name registered_settings
              connection name with
      | None =>
          (connection,
           FALSE (NM_CONNECTION_ERROR NM_CONNECTION_ERROR_SETTING_NOT_FOUND
                    name))
      | Some setting =>
          let '(setting', success) := nm_setting_update_secrets setting tmp in
          let connection :=
            setting_written registered_settings connection name setting' in
          match success with
          | TRUE => update_secrets_all registered_settings connection rest
          | FALSE e => (connection, FALSE e)
          end
      end
  end.

(** The connection after the call, the result, and the signals emitted. *)
Definition nm_connection_update_secrets (registered_settings : Registry)
    (connection : NMConnection) (setting_name : option string)
    (secrets : list (string * gpointer))
    : NMConnection * gboolean_err * list Signal :=
  match setting_name with
  | Some name =>
      match nm_connection_get_setting_by_name registered_settings
              connection name with
      | None =>
          (connection,
           FALSE (NM_CONNECTION_ERROR NM_CONNECTION_ERROR_SETTING_NOT_FOUND
                    name),
           [])
      | Some setting =>
          let tmp := g_hash_table_lookup secrets name in
          let '(setting', success) :=
            nm_setting_update_secrets setting
              (match tmp with Some t => t | None => PHash secrets end) in
          (setting_written registered_settings connection name setting',
           success,
           if succeeded success then [SECRETS_UPDATED setting_name] else [])
      end
  | None =>
      let '(connection, success) :=
        update_secrets_all registered_settings connection secrets in
      (connection, success,
       if succeeded success then [SECRETS_UPDATED setting_name] else [])
  end.

Definition setting_priority_compare (registered_settings : Registry)
    (a b : NMSetting) : Z :=
  let prio_a := _get_setting_priority registered_settings a in
  let prio_b := _get_setting_priority registered_settings b in
  if prio_a <? prio_b then (-1)%Z
  else if prio_a =? prio_b then 0%Z
  else 1%Z.

Definition settings_in_priority_order (registered_settings : Registry)
    (connection : NMConnection) : list NMSetting :=
  fold_left
    (fun settings setting =>
       g_slist_insert_sorted settings setting
         (setting_priority_compare registered_settings))
    (values (settings connection)) [].

Fixpoint first_needing_secrets (l : list NMSetting)
    : option (string * list string) :=
  match l with
  | [] => None
  | setting :: rest =>
      match nm_setting_need_secrets setting with
      | Some secrets => Some (nm_setting_get_name setting, secrets)
      | None => first_needing_secrets rest
      end
  end.

(** The returned name with [*hints], or NULL. *)
Definition nm_connection_need_secrets (registered_settings : Registry)
    (connection : NMConnection) : option (string * list string) :=
  first_needing_secrets
    (settings_in_priority_order registered_settings connection).

End Connection.

Arguments NMConnection : clear implicits.

(** ** Ownership of the settings of a connection

    [nm_connection_init] creates [settings] with [g_object_unref] as the
    function that destroys a value: the table owns the one reference of
    each setting it holds.  [g_hash_table_insert] on a key that is present
    destroys the value it replaces, and [g_hash_table_remove_all] destroys
    every value.  Here the settings are objects with an address, and the
    calls of [g_object_unref] are recorded. *)

Module Ownership.
Section Objects.
Context {NMSetting : Type} `{NMSettingClass NMSetting}.

Record GObject := {
  address : nat;
  state : NMSetting
}.

Record Settings := {
  table : GHashTable GType GObject;
  allocated : nat;
  unreffed : list nat
}.

Definition g_object_new (st : Settings) (s : NMSetting)
    : Settings * GObject :=
  ({| table := table st; allocated := S (allocated st);
      unreffed := unreffed st |},
   {| address := allocated st; state := s |}).

Definition nm_connection_add_setting (st : Settings) (setting : GObject)
    : Settings :=
  let key := G_OBJECT_TYPE (state setting) in
  {| table := g_hash_table_insert (table st) key setting;
     allocated := allocated st;
     unreffed :=
       unreffed st ++
       match g_hash_table_lookup (table st) key with
       | Some old => [address old]
       | None => []
       end |}.

Definition remove_all (st : Settings) : Settings :=
  {| table := g_hash_table_remove_all (table st);
     allocated := allocated st;
     unreffed := unreffed st ++ map address (values (table st)) |}.

Definition hash_to_connection_step (registered_settings : Registry)
    (acc : Settings * option GObject) (entry : string * PropHash)
    : Settings * option GObject :=
  let '(st, setting) := acc in
  let '(setting_name, setting_hash) := entry in
  let type :=
    nm_connection_lookup_setting_type registered_settings setting_name in
  let '(st, setting) :=
    if type =? 0 then (st, setting)
    else
      match nm_setting_new_from_hash type setting_hash with
      | Some s => let '(st', o) := g_object_new st s in (st', Some o)
      | None => (st, None)
      end in
  match setting with
  | Some o => (nm_connection_add_setting st o, setting)
  | None => (st, setting)
  end.

(** The settings after the loop of [hash_to_connection]. *)
Definition hash_to_connection (registered_settings : Registry)
    (st : Settings) (new : ConnectionHash) : Settings :=
  fst (fold_left (hash_to_connection_step registered_settings) new
         (remove_all st, None)).

(** A setting is created with one reference, which the table takes over,
    and nothing here takes another: an object that was unreffed is
    finalized.  The table dangles when it holds such an object. *)
Definition dangling (st : Settings) : bool :=
  existsb (fun o => existsb (Nat.eqb (address o)) (unreffed st))
    (values (table st)).

(** The table without the addresses. *)
Definition erase (st : Settings) : GHashTable GType NMSetting :=
  map (fun kv => (fst kv, state (snd kv))) (table st).

Definition addresses (st : Settings) : list nat :=
  map address (values (table st)).

(** The objects of the table are distinct and allocated, and none of them
    was unreffed. *)
Definition well_owned (st : Settings) : Prop :=
  NoDup (addresses st)
  /\ (forall a, In a (addresses st) -> (a < allocated st)%nat)
  /\ (forall a, In a (unreffed st) ->
        (a < allocated st)%nat /\ ~ In a (addresses st)).

End Objects.

Arguments GObject : clear implicits.
Arguments Settings : clear implicits.

End Ownership.

(** ** A small world of setting kinds

    Concrete kinds, registered as the nm-setting-*.c files register
    theirs, on which the functions above can be run.  A setting is its
    kind and its properties. *)

Module Kinds.

Definition T_CONNECTION : GType := 80.
Definition T_WIRED : GType := 84.
Definition T_WIRELESS_SECURITY : GType := 88.
Definition T_8021X : GType := 92.
Definition T_PPP : GType := 96.
Definition T_PPPOE : GType := 100.
Definition T_STRV : GType := 60.
Definition T_LIST_OF_STRING : GType := 64.
Definition T_STRING : GType := 16.

Record Setting := {
  kind : GType;
  props : PropHash
}.

Definition name_of (t : GType) : string :=
  if t =? T_CONNECTION then "connection"
  else if t =? T_WIRED then "802-3-ethernet"
  else if t =? T_WIRELESS_SECURITY then "802-11-wireless-security"
  else if t =? T_8021X then "802-1x"
  else if t =? T_PPP then "ppp"
  else if t =? T_PPPOE then "pppoe"
  else "unknown".

Definition gvalue_eqb (a b : GValue) : bool :=
  (G_VALUE_TYPE a =? G_VALUE_TYPE b)
  && if list_eq_dec string_dec (g_value_contents a) (g_value_contents b)
     then true else false.

Fixpoint props_eqb (a b : PropHash) : bool :=
  match a, b with
  | [], [] => true
  | (k, v) :: a', (k', v') :: b' =>
      String.eqb k k' && gvalue_eqb v v' && props_eqb a' b'
  | _, _ => false
  end.

Definition str (s : string) : GValue :=
  {| G_VALUE_TYPE := T_STRING; g_value_contents := [s] |}.

Definition string_prop (s : Setting) (p : string) : option string :=
  match g_hash_table_lookup (props s) p with
  | Some v => Some (hd ""%string (g_value_contents v))
  | None => None
  end.

#[global] Instance setting_class : NMSettingClass Setting := {|
  G_OBJECT_TYPE := kind;
  nm_setting_get_name := fun s => name_of (kind s);
  nm_setting_verify := fun s _ =>
    match string_prop s "invalid" with
    | Some m => FALSE (SettingKindError (kind s) 1 m)
    | None => TRUE
    end;
  nm_setting_compare := fun a b _ => props_eqb (props a) (props b);
  nm_setting_diff_properties := fun a b _ invert =>
    match b with
    | None => [("name"%string, if invert then 2 else 1)]
    | Some b' =>
        if props_eqb (props a) (props b') then []
        else [("changed"%string, 3)]
    end;
  nm_setting_need_secrets := fun s =>
    match g_hash_table_lookup (props s) "needs" with
    | Some v => Some (g_value_contents v)
    | None => None
    end;
  nm_setting_update_secrets := fun s p =>
    match p with
    | PHash entries =>
        match g_hash_table_lookup entries "psk" with
        | Some (PValue v) =>
            ({| kind := kind s;
                props := g_hash_table_insert (props s) "psk" v |}, TRUE)
        | _ => (s, FALSE (SettingKindError (kind s) 2 "psk"))
        end
    | PValue _ => (s, FALSE (SettingKindError (kind s) 2 "psk"))
    end;
  nm_setting_to_hash := fun s _ =>
    match props s with [] => None | _ => Some (props s) end;
  nm_setting_new_from_hash := fun t h => Some {| kind := t; props := h |};
  nm_setting_connection_get_connection_type := fun s => string_prop s "type";
  NM_TYPE_SETTING_CONNECTION := T_CONNECTION;
  NM_TYPE_SETTING_PPPOE := T_PPPOE;
  G_TYPE_STRV := T_STRV;
  DBUS_TYPE_G_LIST_OF_STRING := T_LIST_OF_STRING
|}.

(** The registry after the registrations of the kinds. *)
Definition register_all (calls : list (string * GType * N * GQuark))
    : Registry :=
  fold_left
    (fun reg '(name, t, prio, q) =>
       match registry_after (_nm_register_setting reg name t prio q) with
       | Some reg' => reg'
       | None => reg
       end)
    calls g_hash_table_new.

Definition registry : Registry :=
  Eval vm_compute in
    register_all
      [("connection"%string, T_CONNECTION, 0, 1001);
       ("802-3-ethernet"%string, T_WIRED, 1, 1002);
       ("802-11-wireless-security"%string, T_WIRELESS_SECURITY, 2, 1003);
       ("802-1x"%string, T_8021X, 2, 1004);
       ("ppp"%string, T_PPP, 3, 1005);
       ("pppoe"%string, T_PPPOE, 3, 1006)].

Definition s_con (ctype : string) : Setting :=
  {| kind := T_CONNECTION;
     props := [("id"%string, str "eth0"); ("type"%string, str ctype)] |}.

Definition s_wired_default : Setting := {| kind := T_WIRED; props := [] |}.

Definition s_wired : Setting :=
  {| kind := T_WIRED; props := [("mtu"%string, str "1500")] |}.

Definition needing (t : GType) (hint : string) : Setting :=
  {| kind := t;
     props := [("needs"%string,
                {| G_VALUE_TYPE := T_STRV; g_value_contents := [hint] |})] |}.

Definition connection_of (l : list Setting) : NMConnection Setting :=
  fold_left nm_connection_add_setting l (nm_connection_new 1).

End Kinds.


(** ** Notions used in the statements *)

(** What [_nm_register_setting] lets into the registry. *)
Definition entry_ok (e : string * SettingInfo) : Prop :=
  priority (snd e) <= 4
  /\ type (snd e) <> G_TYPE_INVALID
  /\ error_quark (snd e) <> 0
  /\ (priority (snd e) = 0 -> fst e = NM_SETTING_CONNECTION_SETTING_NAME).

Section Notions.
Context {NMSetting : Type} `{NMSettingClass NMSetting}.

(** Some entry of the registry has the kind of the setting. *)
Definition registered (reg : Registry) (s : NMSetting) : Prop :=
  exists name info, In (name, info) reg /\ type info = G_OBJECT_TYPE s.

(** A setting of [a] has its counterpart in [b]. *)
Definition matched_in (b : NMConnection NMSetting)
    (flags : NMSettingCompareFlags)
    (src : NMSetting) : Prop :=
  exists cmp,
    nm_connection_get_setting b (G_OBJECT_TYPE src) = Some cmp
    /\ nm_setting_compare src cmp flags = true.

Definition needs_secrets (s : NMSetting) : bool :=
  match nm_setting_need_secrets s with Some _ => true | None => false end.

(** The order as the specification words it: ascending priority, settings
    of equal priority in the order in which the table yields them. *)
Fixpoint insert_after_equals (registered_settings : Registry)
    (l : list NMSetting) (data : NMSetting) : list NMSetting :=
  match l with
  | [] => [data]
  | x :: t =>
      if _get_setting_priority registered_settings x
         <=? _get_setting_priority registered_settings data
      then x :: insert_after_equals registered_settings t data
      else data :: x :: t
  end.

Definition stable_priority_order (registered_settings : Registry)
    (connection : NMConnection NMSetting) : list NMSetting :=
  fold_left (insert_after_equals registered_settings)
    (values (settings connection)) [].

(** The table of a connection holds each setting under its own kind, one
    per kind: what [nm_connection_add_setting] maintains. *)
Definition table_consistent (c : NMConnection NMSetting) : Prop :=
  NoDup (keys (settings c))
  /\ Forall (fun kv => fst kv = G_OBJECT_TYPE (snd kv)) (settings c).

(** The counterpart that [diff_one_setting] hands to [nm_setting_diff]. *)
Definition counterpart (b : option (NMConnection NMSetting))
    (a_setting : NMSetting) : option NMSetting :=
  match b with
  | Some b => nm_connection_get_setting b (G_OBJECT_TYPE a_setting)
  | None => None
  end.

(** Matching semantics of a kind's diff and compare under the exact flags:
    a setting without counterpart is a difference; against a counterpart
    of its kind, no property differs exactly when the two compare equal;
    comparison is symmetric and reflexive. *)
Definition diff_matches_compare : Prop :=
  (forall s invert,
     nm_setting_diff_properties s None NM_SETTING_COMPARE_FLAG_EXACT invert
     <> [])
  /\ (forall s s' invert,
        G_OBJECT_TYPE s = G_OBJECT_TYPE s' ->
        (nm_setting_diff_properties s (Some s')
           NM_SETTING_COMPARE_FLAG_EXACT invert = []
         <-> nm_setting_compare s s' NM_SETTING_COMPARE_FLAG_EXACT = true))
  /\ (forall s s',
        nm_setting_compare s s' NM_SETTING_COMPARE_FLAG_EXACT
        = nm_setting_compare s' s NM_SETTING_COMPARE_FLAG_EXACT)
  /\ (forall s, nm_setting_compare s s NM_SETTING_COMPARE_FLAG_EXACT = true).

(** The table a setting is serialized to under all flags (empty when
    [nm_setting_to_hash] returns NULL). *)
Definition serialized (s : NMSetting) : PropHash :=
  match nm_setting_to_hash s NM_SETTING_HASH_FLAG_ALL with
  | Some h => h
  | None => g_hash_table_new
  end.

(** The kind of the setting is registered under the setting's name. *)
Definition kind_registered (registered_settings : Registry) (s : NMSetting)
    : Prop :=
  nm_connection_lookup_setting_type registered_settings
    (nm_setting_get_name s) = G_OBJECT_TYPE s
  /\ G_OBJECT_TYPE s <> G_TYPE_INVALID.

(** The kind's pair of [nm_setting_to_hash] and [nm_setting_new_from_hash]
    is lossless on the setting: what is read back from its table is the
    setting, and it compares equal to itself. *)
Definition lossless (s : NMSetting) : Prop :=
  nm_setting_new_from_hash (G_OBJECT_TYPE s) (serialized s) = Some s
  /\ nm_setting_compare s s NM_SETTING_COMPARE_FLAG_EXACT = true.

(** A "permissions" entry of the serialized connection setting is a list
    of strings. *)
Definition permissions_well_typed (s : NMSetting) : Prop :=
  nm_setting_get_name s = NM_SETTING_CONNECTION_SETTING_NAME ->
  forall v,
    g_hash_table_lookup (serialized s) NM_SETTING_CONNECTION_PERMISSIONS
    = Some v ->
    G_VALUE_HOLDS v G_TYPE_STRV || G_VALUE_HOLDS v DBUS_TYPE_G_LIST_OF_STRING
    = true.


(** The choice among the settings seen so far, after one more setting of
    the table: it takes over unless a setting of lower priority was
    chosen. *)
Definition choose (registered_settings : Registry)
    (best : option NMSetting) (x : NMSetting) : option NMSetting :=
  if needs_secrets x then
    match best with
    | Some f =>
        if _get_setting_priority registered_settings f
           <? _get_setting_priority registered_settings x
        then Some f else Some x
    | None => Some x
    end
  else best.

End Notions.

(** ** The rest of nm-connection.c

    The operations of a setting kind that the functions below call. *)

Class NMSettingMore (NMSetting : Type) := {
  nm_setting_duplicate : NMSetting -> NMSetting;
  (** the setting after its secrets were cleared *)
  nm_setting_clear_secrets : NMSetting -> NMSetting;
  (** [func] is asked, for a secret of the setting with its flags, whether
      to clear it *)
  nm_setting_clear_secrets_with_flags :
    NMSetting -> (NMSetting -> string -> N -> bool) -> NMSetting;
  nm_setting_get_virtual_iface_name : NMSetting -> option string;
  nm_setting_connection_get_uuid : NMSetting -> option string;
  nm_setting_connection_get_id : NMSetting -> option string
}.

(** A function that checks with [g_assert]: it returns, or the process is
    aborted. *)
Inductive asserted (A : Type) :=
| Returned (a : A)
| AssertFailed.

Arguments Returned {A} a.
Arguments AssertFailed {A}.

Section MoreConnection.
Context {NMSetting : Type} `{NMSettingClass NMSetting}
  `{NMSettingMore NMSetting}.

Definition nm_connection_set_path (connection : NMConnection NMSetting)
    (new_path : option string) : NMConnection NMSetting :=
  {| self := self connection; settings := settings connection;
     path := match new_path with Some p => Some p | None => None end |}.

Definition nm_connection_get_path (connection : NMConnection NMSetting)
    : option string :=
  path connection.

Definition _get_type_setting (registered_settings : Registry)
    (connection : NMConnection NMSetting) : asserted NMSetting :=
  match nm_connection_get_setting_connection connection with
  | None => AssertFailed
  | Some s_con =>
      match nm_setting_connection_get_connection_type s_con with
      | None => AssertFailed
      | Some type =>
          match nm_connection_get_setting_by_name registered_settings
                  connection type with
          | None => AssertFailed
          | Some base => Returned base
          end
      end
  end.

Definition nm_connection_get_virtual_iface_name
    (registered_settings : Registry) (connection : NMConnection NMSetting)
    : asserted (option string) :=
  match _get_type_setting registered_settings connection with
  | AssertFailed => AssertFailed
  | Returned base => Returned (nm_setting_get_virtual_iface_name base)
  end.

Definition nm_connection_is_type (connection : NMConnection NMSetting)
    (type : string) : asserted bool :=
  match nm_connection_get_setting_connection connection with
  | None => AssertFailed
  | Some s_con =>
      match nm_setting_connection_get_connection_type s_con with
      | None => AssertFailed
      | Some type2 => Returned (String.eqb type2 type)
      end
  end.

(** NULL from the failed [g_return_val_if_fail] when there is no
    connection setting. *)
Definition nm_connection_get_uuid (connection : NMConnection NMSetting)
    : option string :=
  match nm_connection_get_setting_connection connection with
  | None => None
  | Some s_con => nm_setting_connection_get_uuid s_con
  end.

Definition nm_connection_get_id (connection : NMConnection NMSetting)
    : option string :=
  match nm_connection_get_setting_connection connection with
  | None => None
  | Some s_con => nm_setting_connection_get_id s_con
  end.

(** The settings are objects of the table: clearing their secrets changes
    the values the table holds, in place. *)
Definition nm_connection_clear_secrets (connection : NMConnection NMSetting)
    : NMConnection NMSetting * list Signal :=
  (set_settings connection
     (map (fun kv => (fst kv, nm_setting_clear_secrets (snd kv)))
        (settings connection)),
   [SECRETS_CLEARED]).

Definition nm_connection_clear_secrets_with_flags
    (connection : NMConnection NMSetting)
    (func : NMSetting -> string -> N -> bool)
    : NMConnection NMSetting * list Signal :=
  (set_settings connection
     (map (fun kv =>
             (fst kv, nm_setting_clear_secrets_with_flags (snd kv) func))
        (settings connection)),
   [SECRETS_CLEARED]).


End MoreConnection.

(** The kinds of the small world: a duplicate is a copy, the secret is the
    property "psk". *)
#[global] Instance kinds_more : NMSettingMore Kinds.Setting := {|
  nm_setting_duplicate := fun s =>
    {| Kinds.kind := Kinds.kind s; Kinds.props := Kinds.props s |};
  nm_setting_clear_secrets := fun s =>
    {| Kinds.kind := Kinds.kind s;
       Kinds.props := g_hash_table_remove (Kinds.props s) "psk" |};
  nm_setting_clear_secrets_with_flags := fun s func =>
    if func s "psk"%string 0 then
      {| Kinds.kind := Kinds.kind s;
         Kinds.props := g_hash_table_remove (Kinds.props s) "psk" |}
    else s;
  nm_setting_get_virtual_iface_name := fun s =>
    Kinds.string_prop s "interface-name";
  nm_setting_connection_get_uuid := fun s => Kinds.string_prop s "uuid";
  nm_setting_connection_get_id := fun s => Kinds.string_prop s "id"
|}.

(** * Properties *)

(** ** Hash tables *)

Section HashTableFacts.
Context {K V : Type} `{KeyEq K}.

Lemma key_eqb_refl (k : K) : key_eqb k k = true.
Proof. now apply key_eqb_spec. Qed.

Lemma key_eqb_neq (a b : K) : a <> b -> key_eqb a b = false.
Proof.
  intros Hab. destruct (key_eqb a b) eqn:E; [|reflexivity].
  apply key_eqb_spec in E. contradiction.
Qed.

Lemma lookup_In (h : GHashTable K V) k v :
  g_hash_table_lookup h k = Some v -> In (k, v) h.
Proof.
  induction h as [|[k' v'] t IH]; simpl; [discriminate|].
  destruct (key_eqb k' k) eqn:E.
  - intros [= ->]. apply key_eqb_spec in E. subst. now left.
  - intros Hl. right. now apply IH.
Qed.

Lemma lookup_None_iff (h : GHashTable K V) k :
  g_hash_table_lookup h k = None <-> ~ In k (keys h).
Proof.
  induction h as [|[k' v'] t IH]; simpl.
  - split; [intros _ []|reflexivity].
  - destruct (key_eqb k' k) eqn:E.
    + apply key_eqb_spec in E. subst. split; [discriminate|].
      intros Hn. exfalso. apply Hn. now left.
    + rewrite IH. split.
      * intros Hn [->|Hin]; [|now apply Hn].
        rewrite key_eqb_refl in E. discriminate.
      * intros Hn Hin. apply Hn. now right.
Qed.

Lemma In_lookup (h : GHashTable K V) k v :
  NoDup (keys h) -> In (k, v) h -> g_hash_table_lookup h k = Some v.
Proof.
  induction h as [|[k' v'] t IH]; simpl; [intros _ []|].
  intros Hnd [Heq|Hin].
  - injection Heq as -> ->. now rewrite key_eqb_refl.
  - inversion Hnd as [|? ? Hnotin Hnd']; subst.
    destruct (key_eqb k' k) eqn:E.
    + apply key_eqb_spec in E. subst. exfalso. apply Hnotin.
      change k with (fst (k, v)). now apply in_map.
    + now apply IH.
Qed.

Lemma lookup_insert_same (h : GHashTable K V) k v :
  g_hash_table_lookup (g_hash_table_insert h k v) k = Some v.
Proof.
  induction h as [|[k' v'] t IH]; simpl.
  - now rewrite key_eqb_refl.
  - destruct (key_eqb k' k) eqn:E; simpl; rewrite E; [reflexivity|exact IH].
Qed.

Lemma lookup_insert_other (h : GHashTable K V) k k' v :
  k <> k' ->
  g_hash_table_lookup (g_hash_table_insert h k v) k' =
  g_hash_table_lookup h k'.
Proof.
  intros Hne. induction h as [|[k0 v0] t IH]; simpl.
  - now rewrite key_eqb_neq.
  - destruct (key_eqb k0 k) eqn:E; simpl.
    + apply key_eqb_spec in E. subst. now rewrite key_eqb_neq.
    + now rewrite IH.
Qed.

Lemma insert_absent (h : GHashTable K V) k v :
  g_hash_table_lookup h k = None ->
  g_hash_table_insert h k v = (h ++ [(k, v)])%list.
Proof.
  induction h as [|[k0 v0] t IH]; simpl; [reflexivity|].
  destruct (key_eqb k0 k); [discriminate|].
  intros Hl. now rewrite IH.
Qed.


Lemma keys_insert_present (h : GHashTable K V) k v :
  g_hash_table_lookup h k <> None ->
  keys (g_hash_table_insert h k v) = keys h.
Proof.
  induction h as [|[k0 v0] t IH]; simpl; [congruence|].
  destruct (key_eqb k0 k) eqn:E; simpl; [reflexivity|].
  intros Hl. now rewrite IH.
Qed.

Lemma insert_In (h : GHashTable K V) k v kv :
  In kv (g_hash_table_insert h k v) -> kv = (k, v) \/ In kv h.
Proof.
  induction h as [|[k0 v0] t IH]; simpl.
  - intros [<-|[]]. now left.
  - destruct (key_eqb k0 k) eqn:E; simpl.
    + apply key_eqb_spec in E. subst. intros [<-|Hin]; auto.
    + intros [<-|Hin]; auto. destruct (IH Hin); auto.
Qed.

Lemma NoDup_keys_insert (h : GHashTable K V) k v :
  NoDup (keys h) -> NoDup (keys (g_hash_table_insert h k v)).
Proof.
  intros Hnd. destruct (g_hash_table_lookup h k) eqn:E.
  - rewrite keys_insert_present; [exact Hnd|congruence].
  - rewrite insert_absent by exact E. unfold keys. rewrite map_app. simpl.
    apply lookup_None_iff in E.
    apply Permutation_NoDup with (l := k :: map fst h).
    + apply Permutation_cons_append.
    + now constructor.
Qed.

End HashTableFacts.

(** ** The registry *)

Lemma register_returned reg name ty prio q reg' :
  registry_after (_nm_register_setting reg name ty prio q) = Some reg' ->
  reg' = reg
  \/ (reg' = g_hash_table_insert reg name
              {| type := ty; priority := prio; error_quark := q |}
      /\ g_hash_table_lookup reg name = None
      /\ entry_ok (name, {| type := ty; priority := prio; error_quark := q |})).
Proof.
  unfold _nm_register_setting.
  destruct (ty =? G_TYPE_INVALID) eqn:E1; [simpl; intros [= <-]; now left|].
  destruct (ty =? G_TYPE_NONE) eqn:E2; [simpl; intros [= <-]; now left|].
  destruct (q =? 0) eqn:E3; [simpl; intros [= <-]; now left|].
  destruct (prio <=? 4) eqn:E4; simpl; [|intros [= <-]; now left].
  destruct (g_hash_table_lookup reg name) eqn:E5;
    [simpl; intros [= <-]; now left|].
  destruct (prio =? 0) eqn:E6; simpl.
  - destruct (String.eqb name NM_SETTING_CONNECTION_SETTING_NAME) eqn:E7;
      simpl; [|discriminate].
    intros [= <-]. right. repeat split; simpl.
    + now apply N.leb_le.
    + now apply N.eqb_neq.
    + now apply N.eqb_neq.
    + intros _. now apply String.eqb_eq.
  - intros [= <-]. right. repeat split; simpl.
    + now apply N.leb_le.
    + now apply N.eqb_neq.
    + now apply N.eqb_neq.
    + intros ->. discriminate.
Qed.

Lemma reachable_entries reg :
  reachable reg -> Forall entry_ok reg /\ NoDup (keys reg).
Proof.
  induction 1 as [|reg name ty prio q reg' Hr [IHf IHn] Hafter].
  - split; constructor.
  - apply register_returned in Hafter.
    destruct Hafter as [->|(-> & Hnone & Hok)]; [now split|].
    split.
    + apply Forall_forall. intros e Hin.
      apply insert_In in Hin. destruct Hin as [->|Hin]; [exact Hok|].
      rewrite Forall_forall in IHf. now apply IHf.
    + now apply NoDup_keys_insert.
Qed.

Lemma scan_priority_cases (entries : Registry) (t : GType) :
  (scan_priority entries t = G_MAXUINT32
   /\ forall name info, In (name, info) entries -> type info <> t)
  \/ (exists name info,
        In (name, info) entries /\ type info = t
        /\ scan_priority entries t = priority info).
Proof.
  induction entries as [|[n i] rest IH]; simpl.
  - left. split; [reflexivity|intros ? ? []].
  - destruct (t =? type i) eqn:E.
    + apply N.eqb_eq in E. right. exists n, i. auto.
    + apply N.eqb_neq in E.
      destruct IH as [[Hs Hall]|(n' & i' & Hin & Ht & Hs)].
      * left. split; [exact Hs|].
        intros name info [[= <- <-]|Hin]; [congruence|eauto].
      * right. exists n', i'. auto.
Qed.

Lemma scan_priority_unique (entries : Registry) name info :
  NoDup (map type (values entries)) ->
  In (name, info) entries ->
  scan_priority entries (type info) = priority info.
Proof.
  induction entries as [|[n i] rest IH]; simpl; [intros _ []|].
  intros Hnd [[= -> ->]|Hin].
  - now rewrite N.eqb_refl.
  - inversion Hnd as [|? ? Hnotin Hnd']; subst.
    destruct (type info =? type i) eqn:E.
    + apply N.eqb_eq in E. exfalso. apply Hnotin. rewrite <- E.
      apply in_map. change info with (snd (name, info)). now apply in_map.
    + now apply IH.
Qed.

(** Claim C6, as the code has it.  [_nm_register_setting] records nothing
    and leaves the registry as it was when the priority is above 4 or the
    error quark is 0: these are [g_return_if_fail] checks, after which the
    function returns.  With valid arguments, priority 0 and a name other
    than "connection" that is not yet registered, [g_assert_cmpstr] aborts.
    For a name that is registered, every call returns with the registry
    unchanged. *)
Theorem register_setting_checks (reg : Registry) (name : string)
    (ty : GType) (prio : N) (q : GQuark) :
  ((4 < prio \/ q = 0) ->
   _nm_register_setting reg name ty prio q = ReturnIfFail reg)
  /\ (ty <> G_TYPE_INVALID -> ty <> G_TYPE_NONE -> q <> 0 -> prio = 0 ->
      name <> NM_SETTING_CONNECTION_SETTING_NAME ->
      g_hash_table_lookup reg name = None ->
      _nm_register_setting reg name ty prio q = AssertionAbort)
  /\ (g_hash_table_lookup reg name <> None ->
      registry_after (_nm_register_setting reg name ty prio q) = Some reg).
Proof.
  unfold _nm_register_setting. repeat split.
  - intros Hbad.
    destruct (ty =? G_TYPE_INVALID); [reflexivity|].
    destruct (ty =? G_TYPE_NONE); [reflexivity|].
    destruct (q =? 0) eqn:E3; [reflexivity|].
    destruct (prio <=? 4) eqn:E4; [|reflexivity].
    apply N.eqb_neq in E3. apply N.leb_le in E4. lia.
  - intros H1 H2 H3 -> Hname Hnone.
    apply N.eqb_neq in H1, H2, H3. rewrite H1, H2, H3. simpl.
    rewrite Hnone. apply String.eqb_neq in Hname. now rewrite Hname.
  - intros Hsome.
    destruct (ty =? G_TYPE_INVALID); [reflexivity|].
    destruct (ty =? G_TYPE_NONE); [reflexivity|].
    destruct (q =? 0); [reflexivity|].
    destruct (prio <=? 4); [|reflexivity]. simpl.
    destruct (g_hash_table_lookup reg name); [reflexivity|congruence].
Qed.

Lemma register_setting_checks_witness :
  _nm_register_setting Kinds.registry "bond" 104 5 1007
    = ReturnIfFail Kinds.registry
  /\ _nm_register_setting Kinds.registry "bond" 104 0 1007 = AssertionAbort
  /\ registry_after (_nm_register_setting Kinds.registry "ppp" 104 0 1007)
     = Some Kinds.registry.
Proof.
  pose proof (register_setting_checks Kinds.registry "bond" 104 5 1007)
    as (H1 & _ & _).
  pose proof (register_setting_checks Kinds.registry "bond" 104 0 1007)
    as (_ & H2 & _).
  pose proof (register_setting_checks Kinds.registry "ppp" 104 0 1007)
    as (_ & _ & H3).
  split; [apply H1; left; reflexivity|].
  split; [apply H2; try reflexivity; discriminate|].
  apply H3. discriminate.
Defined.

(** Claim C6 as stated fails: with priority 5 the call is not fatal, it
    returns (and records nothing); with priority 0 and the registered name
    "ppp" it returns as well. *)
Lemma register_bad_priority_returns :
  4 < 5
  /\ _nm_register_setting Kinds.registry "bond" 104 5 1007 <> AssertionAbort
  /\ "ppp"%string <> NM_SETTING_CONNECTION_SETTING_NAME
  /\ _nm_register_setting Kinds.registry "ppp" 104 0 1007 <> AssertionAbort.
Proof. repeat split; discriminate. Qed.

Section RegistryFacts.
Context {NMSetting : Type} `{NMSettingClass NMSetting}.

Lemma registered_priority_le_4 (reg : Registry) (s : NMSetting) :
  reachable reg -> registered reg s -> _get_setting_priority reg s <= 4.
Proof.
  intros Hr (name & info & Hin & Ht).
  apply reachable_entries in Hr. destruct Hr as [Hok _].
  unfold _get_setting_priority.
  destruct (scan_priority_cases reg (G_OBJECT_TYPE s))
    as [[_ Hall]|(n' & i' & Hin' & _ & ->)].
  - exfalso. exact (Hall _ _ Hin Ht).
  - rewrite Forall_forall in Hok. exact (proj1 (Hok _ Hin')).
Qed.

(** Claim C7.  [_get_setting_priority] is the sentinel [G_MAXUINT32] for a
    kind that no entry of the registry has, and the registered priority of
    the kind otherwise (of its one entry, when each kind is registered
    once); in a registry made by [_nm_register_setting] the
    sentinel is above every registered priority, so that an unregistered
    kind compares after every registered one; the connection kind,
    registered under its name with priority 0, has priority 0; and
    [_is_setting_base_type] holds exactly for priority 1 and for PPPoE. *)
Theorem setting_priority_and_base_type (reg : Registry) (s : NMSetting) :
  (~ registered reg s -> _get_setting_priority reg s = G_MAXUINT32)
  /\ (registered reg s ->
      exists name info,
        In (name, info) reg /\ type info = G_OBJECT_TYPE s
        /\ _get_setting_priority reg s = priority info)
  /\ (forall name info,
        NoDup (map type (values reg)) -> In (name, info) reg ->
        type info = G_OBJECT_TYPE s ->
        _get_setting_priority reg s = priority info)
  /\ (forall s', reachable reg -> registered reg s' -> ~ registered reg s ->
        _get_setting_priority reg s' < _get_setting_priority reg s
        /\ setting_priority_compare reg s' s = (-1)%Z
        /\ setting_priority_compare reg s s' = 1%Z)
  /\ (forall q,
        NoDup (map type (values reg)) ->
        In (NM_SETTING_CONNECTION_SETTING_NAME,
            {| type := NM_TYPE_SETTING_CONNECTION; priority := 0;
               error_quark := q |}) reg ->
        G_OBJECT_TYPE s = NM_TYPE_SETTING_CONNECTION ->
        _get_setting_priority reg s = 0)
  /\ (_is_setting_base_type reg s = true <->
      _get_setting_priority reg s = 1
      \/ G_OBJECT_TYPE s = NM_TYPE_SETTING_PPPOE).
Proof.
  assert (Hunreg : ~ registered reg s ->
                   _get_setting_priority reg s = G_MAXUINT32).
  { intros Hn. unfold _get_setting_priority.
    destruct (scan_priority_cases reg (G_OBJECT_TYPE s))
      as [[Hs _]|(n' & i' & Hin' & Ht & _)]; [exact Hs|].
    exfalso. apply Hn. now exists n', i'. }
  assert (Hreg : forall name info,
             NoDup (map type (values reg)) -> In (name, info) reg ->
             type info = G_OBJECT_TYPE s ->
             _get_setting_priority reg s = priority info).
  { intros name info Hnd Hin Ht. unfold _get_setting_priority.
    rewrite <- Ht. now apply scan_priority_unique with (name := name). }
  split; [exact Hunreg|]. split; [|split; [exact Hreg|split; [|split]]].
  - intros (name & info & Hin & Ht). unfold _get_setting_priority.
    destruct (scan_priority_cases reg (G_OBJECT_TYPE s))
      as [[_ Hall]|(n' & i' & Hin' & Ht' & Hs)].
    + exfalso. exact (Hall _ _ Hin Ht).
    + now exists n', i'.
  - intros s' Hr Hs' Hs.
    pose proof (registered_priority_le_4 Hr Hs') as Hle.
    specialize (Hunreg Hs).
    assert (Hlt : _get_setting_priority reg s'
                  < _get_setting_priority reg s).
    { rewrite Hunreg. unfold G_MAXUINT32. lia. }
    split; [exact Hlt|]. unfold setting_priority_compare. split.
    + apply N.ltb_lt in Hlt. now rewrite Hlt.
    + destruct (_get_setting_priority reg s <? _get_setting_priority reg s')
        eqn:E1; [apply N.ltb_lt in E1; lia|].
      destruct (_get_setting_priority reg s =? _get_setting_priority reg s')
        eqn:E2; [apply N.eqb_eq in E2; lia|reflexivity].
  - intros q Hnd Hin Ht.
    now rewrite (Hreg _ _ Hnd Hin (eq_sym Ht)).
  - unfold _is_setting_base_type, NM_IS_SETTING_PPPOE.
    rewrite orb_true_iff, !N.eqb_eq. reflexivity.
Qed.

End RegistryFacts.

Lemma register_all_reachable calls : reachable (Kinds.register_all calls).
Proof.
  unfold Kinds.register_all.
  assert (Hgen : forall reg, reachable reg ->
            reachable
              (fold_left
                 (fun reg '(name, t, prio, q) =>
                    match registry_after
                            (_nm_register_setting reg name t prio q) with
                    | Some reg' => reg'
                    | None => reg
                    end) calls reg)).
  { induction calls as [|[[[name t] prio] q] rest IH]; intros reg Hr;
      simpl; [exact Hr|].
    apply IH.
    destruct (registry_after (_nm_register_setting reg name t prio q))
      eqn:E; [|exact Hr].
    eapply reachable_register; eauto. }
  apply Hgen. constructor.
Qed.

Lemma registry_reachable : reachable Kinds.registry.
Proof.
  exact (register_all_reachable
           [("connection"%string, Kinds.T_CONNECTION, 0, 1001);
            ("802-3-ethernet"%string, Kinds.T_WIRED, 1, 1002);
            ("802-11-wireless-security"%string, Kinds.T_WIRELESS_SECURITY,
             2, 1003);
            ("802-1x"%string, Kinds.T_8021X, 2, 1004);
            ("ppp"%string, Kinds.T_PPP, 3, 1005);
            ("pppoe"%string, Kinds.T_PPPOE, 3, 1006)]).
Qed.

Lemma setting_priority_and_base_type_witness :
  _get_setting_priority Kinds.registry (Kinds.s_con "802-3-ethernet") = 0
  /\ _get_setting_priority Kinds.registry
       {| Kinds.kind := 200; Kinds.props := [] |} = G_MAXUINT32
  /\ setting_priority_compare Kinds.registry Kinds.s_wired
       {| Kinds.kind := 200; Kinds.props := [] |} = (-1)%Z.
Proof.
  assert (Hnd : NoDup (map type (values Kinds.registry))).
  { vm_compute. repeat constructor; simpl; intuition discriminate. }
  assert (Hunreg : ~ registered Kinds.registry
                     {| Kinds.kind := 200; Kinds.props := [] |}).
  { intros (n & i & Hin & Ht). vm_compute in Hin, Ht.
    repeat (destruct Hin as [Hin|Hin];
            [injection Hin as <- <-; discriminate Ht|]).
    exact Hin. }
  pose proof registry_reachable as Hreach.
  split.
  - apply (proj1 (proj2 (proj2 (proj2 (proj2
             (setting_priority_and_base_type Kinds.registry
                (Kinds.s_con "802-3-ethernet")))))) 1001 Hnd).
    + left. reflexivity.
    + reflexivity.
  - split.
    + apply (proj1 (setting_priority_and_base_type Kinds.registry _) Hunreg).
    + apply (proj1 (proj2 (proj2 (proj2
               (setting_priority_and_base_type Kinds.registry
                  {| Kinds.kind := 200; Kinds.props := [] |}))))
               Kinds.s_wired Hreach).
      * exists "802-3-ethernet"%string,
          {| type := Kinds.T_WIRED; priority := 1; error_quark := 1002 |}.
        split; [right; left; reflexivity|reflexivity].
      * exact Hunreg.
Defined.

(** ** Verification *)

Section VerifyFacts.
Context {NMSetting : Type} `{NMSettingClass NMSetting}.

Lemma verify_settings_TRUE (l all : list NMSetting) :
  verify_settings l all = TRUE <->
  Forall (fun s => nm_setting_verify s all = TRUE) l.
Proof.
  induction l as [|s rest IH]; simpl.
  - split; [constructor|reflexivity].
  - destruct (nm_setting_verify s all) eqn:E.
    + rewrite IH. split; [now constructor|now inversion 1].
    + split; [discriminate|]. inversion 1; congruence.
Qed.

(** The error of a failed loop is the error of the first setting that does
    not verify. *)
Lemma verify_settings_FALSE (l all : list NMSetting) e :
  verify_settings l all = FALSE e <->
  exists pre s post,
    l = (pre ++ s :: post)%list
    /\ Forall (fun s => nm_setting_verify s all = TRUE) pre
    /\ nm_setting_verify s all = FALSE e.
Proof.
  induction l as [|s rest IH]; simpl.
  - split; [discriminate|]. intros (pre & s & post & Hl & _).
    destruct pre; discriminate.
  - destruct (nm_setting_verify s all) eqn:E.
    + rewrite IH. split.
      * intros (pre & s' & post & -> & Hpre & Hs').
        exists (s :: pre), s', post. repeat split; auto.
      * intros (pre & s' & post & Hl & Hpre & Hs').
        destruct pre as [|p pre]; simpl in Hl; injection Hl as <- ->.
        -- congruence.
        -- inversion Hpre; subst. now exists pre, s', post.
    + split.
      * intros [= <-]. exists [], s, rest. repeat split; auto.
      * intros (pre & s' & post & Hl & Hpre & Hs').
        destruct pre as [|p pre]; simpl in Hl; injection Hl as <- ->.
        -- congruence.
        -- inversion Hpre; congruence.
Qed.

(** Claim C1.  [nm_connection_verify] succeeds exactly when the connection
    has a setting of the connection kind, every setting passes its own
    [nm_setting_verify] on the list of all settings, the connection
    setting has a type, that type names (through the registry) a setting
    of the connection, and that setting is a base type.  Without a setting
    of the connection kind it fails with CONNECTION_SETTING_NOT_FOUND,
    whatever else the connection holds. *)
Theorem connection_verify_iff (reg : Registry) (c : NMConnection NMSetting) :
  (nm_connection_verify reg c = TRUE <->
   exists s_con,
     nm_connection_get_setting c NM_TYPE_SETTING_CONNECTION = Some s_con
     /\ Forall (fun s => nm_setting_verify s (values (settings c)) = TRUE)
          (values (settings c))
     /\ exists ctype,
          nm_setting_connection_get_connection_type s_con = Some ctype
          /\ exists base,
               nm_connection_get_setting_by_name reg c ctype = Some base
               /\ _is_setting_base_type reg base = true)
  /\ (nm_connection_get_setting c NM_TYPE_SETTING_CONNECTION = None ->
      nm_connection_verify reg c =
      FALSE (NM_CONNECTION_ERROR
               NM_CONNECTION_ERROR_CONNECTION_SETTING_NOT_FOUND
               "connection setting not found")).
Proof.
  unfold nm_connection_verify, nm_connection_get_setting_connection. split.
  - destruct (nm_connection_get_setting c NM_TYPE_SETTING_CONNECTION)
      as [s_con|] eqn:Econ.
    2:{ split; [discriminate|]. intros (s & Hs & _). discriminate. }
    destruct (verify_settings (values (settings c)) (values (settings c)))
      eqn:Ever.
    2:{ split; [discriminate|]. intros (s & _ & Hall & _).
        apply verify_settings_TRUE in Hall. congruence. }
    apply verify_settings_TRUE in Ever.
    destruct (nm_setting_connection_get_connection_type s_con)
      as [ctype|] eqn:Etype.
    2:{ split; [discriminate|].
        intros (s & [= <-] & _ & ctype & Hc & _). congruence. }
    destruct (nm_connection_get_setting_by_name reg c ctype)
      as [base|] eqn:Ebase.
    2:{ split; [discriminate|].
        intros (s & [= <-] & _ & ctype' & Hc & base & Hb & _).
        congruence. }
    destruct (_is_setting_base_type reg base) eqn:Eb.
    + split; [|reflexivity]. intros _. exists s_con.
      repeat split; auto. exists ctype. split; auto. now exists base.
    + split; [discriminate|].
      intros (s & [= <-] & _ & ctype' & Hc & base' & Hb & Hbt).
      congruence.
  - intros ->. reflexivity.
Qed.

End VerifyFacts.

Lemma connection_verify_iff_witness :
  nm_connection_verify Kinds.registry
    (Kinds.connection_of [Kinds.s_wired; Kinds.s_con "802-3-ethernet"])
  = TRUE
  /\ nm_connection_verify Kinds.registry (Kinds.connection_of [Kinds.s_wired])
     = FALSE (NM_CONNECTION_ERROR
                NM_CONNECTION_ERROR_CONNECTION_SETTING_NOT_FOUND
                "connection setting not found").
Proof.
  split.
  - apply (proj1 (connection_verify_iff Kinds.registry _)).
    exists (Kinds.s_con "802-3-ethernet").
    split; [reflexivity|]. split; [repeat constructor|].
    exists "802-3-ethernet"%string. split; [reflexivity|].
    exists Kinds.s_wired. split; reflexivity.
  - apply (proj2 (connection_verify_iff Kinds.registry _)). reflexivity.
Defined.

(** ** Comparison *)

Section CompareFacts.
Context {NMSetting : Type} `{NMSettingClass NMSetting}.

Lemma compare_some_some (a b : NMConnection NMSetting) flags :
  nm_connection_compare (Some a) (Some b) flags = true <->
  Forall (matched_in b flags) (values (settings a))
  /\ g_hash_table_size (settings a) = g_hash_table_size (settings b).
Proof.
  unfold nm_connection_compare.
  set (test := fun src =>
         match nm_connection_get_setting b (G_OBJECT_TYPE src) with
         | Some cmp => nm_setting_compare src cmp flags
         | None => false
         end).
  assert (Htest : forall src, test src = true <-> matched_in b flags src).
  { intros src. unfold test, matched_in.
    destruct (nm_connection_get_setting b (G_OBJECT_TYPE src)) as [cmp|].
    - split; [intros Hc; now exists cmp|intros (cmp' & [= <-] & Hc); exact Hc].
    - split; [discriminate|intros (cmp' & Hn & _); discriminate]. }
  destruct (forallb test (values (settings a))) eqn:Efa.
  - rewrite forallb_forall in Efa.
    destruct (Nat.eqb (g_hash_table_size (settings a))
                (g_hash_table_size (settings b))) eqn:Esz; simpl.
    + apply Nat.eqb_eq in Esz. split; [intros _|reflexivity].
      split; [|exact Esz]. apply Forall_forall. intros src Hin.
      apply Htest. now apply Efa.
    + apply Nat.eqb_neq in Esz. split; [discriminate|]. tauto.
  - split; [discriminate|]. intros [Hall _]. exfalso.
    assert (Ht : forallb test (values (settings a)) = true).
    { apply forallb_forall. intros src Hin. apply Htest.
      rewrite Forall_forall in Hall. now apply Hall. }
    congruence.
Qed.

(** Claim C3.  Two NULL connections compare equal; a NULL and a non-NULL
    one do not; two connections compare equal exactly when every setting
    of [a] has a setting of its kind in [b] that [nm_setting_compare]
    accepts under the flags, and both hold the same number of settings. *)
Theorem connection_compare_spec (flags : NMSettingCompareFlags) :
  nm_connection_compare None None flags = true
  /\ (forall c : NMConnection NMSetting,
        nm_connection_compare (Some c) None flags = false
        /\ nm_connection_compare None (Some c) flags = false)
  /\ (forall a b : NMConnection NMSetting,
        nm_connection_compare (Some a) (Some b) flags = true <->
        (forall src, In src (values (settings a)) ->
           exists cmp,
             nm_connection_get_setting b (G_OBJECT_TYPE src) = Some cmp
             /\ nm_setting_compare src cmp flags = true)
        /\ g_hash_table_size (settings a) = g_hash_table_size (settings b)).
Proof.
  split; [reflexivity|]. split; [intros c; split; reflexivity|].
  intros a b. rewrite compare_some_some, Forall_forall. reflexivity.
Qed.

End CompareFacts.

(** ** Updating secrets *)

Section SecretsFacts.
Context {NMSetting : Type} `{NMSettingClass NMSetting}.

Lemma get_setting_by_name_Some reg (c : NMConnection NMSetting) name
    (setting : NMSetting) :
  nm_connection_get_setting_by_name reg c name = Some setting ->
  g_hash_table_lookup (settings c)
    (nm_connection_lookup_setting_type reg name) = Some setting.
Proof.
  unfold nm_connection_get_setting_by_name, nm_connection_get_setting.
  destruct (nm_connection_lookup_setting_type reg name =? 0);
    [discriminate|auto].
Qed.

Lemma setting_written_keys reg (c : NMConnection NMSetting) name setting
    setting' :
  nm_connection_get_setting_by_name reg c name = Some setting ->
  keys (settings (setting_written reg c name setting')) = keys (settings c).
Proof.
  intros Hget. apply get_setting_by_name_Some in Hget.
  unfold setting_written. simpl. apply keys_insert_present. congruence.
Qed.

Lemma get_setting_by_name_None_keys reg (c c' : NMConnection NMSetting) name :
  keys (settings c') = keys (settings c) ->
  nm_connection_get_setting_by_name reg c name = None ->
  nm_connection_get_setting_by_name reg c' name = None.
Proof.
  unfold nm_connection_get_setting_by_name, nm_connection_get_setting.
  intros Hk. destruct (nm_connection_lookup_setting_type reg name =? 0);
    [reflexivity|].
  intros Hn. apply lookup_None_iff. apply lookup_None_iff in Hn.
  now rewrite Hk.
Qed.

Lemma update_secrets_all_keys reg entries : forall (c : NMConnection NMSetting),
  keys (settings (fst (update_secrets_all reg c entries)))
  = keys (settings c).
Proof.
  induction entries as [|[name tmp] rest IH]; intros c; simpl;
    [reflexivity|].
  destruct (nm_connection_get_setting_by_name reg c name)
    as [setting|] eqn:Eget; [|reflexivity].
  destruct (nm_setting_update_secrets setting tmp) as [setting' success].
  pose proof (setting_written_keys reg c name setting' Eget) as Hk.
  destruct success; simpl; [|exact Hk].
  now rewrite IH.
Qed.

Lemma update_secrets_all_app reg pre rest : forall (c : NMConnection NMSetting),
  update_secrets_all reg c (pre ++ rest) =
  match update_secrets_all reg c pre with
  | (c', TRUE) => update_secrets_all reg c' rest
  | (c', FALSE e) => (c', FALSE e)
  end.
Proof.
  induction pre as [|[name tmp] pre IH]; intros c; simpl; [reflexivity|].
  destruct (nm_connection_get_setting_by_name reg c name); [|reflexivity].
  destruct (nm_setting_update_secrets n tmp) as [setting' success].
  destruct success; [apply IH|reflexivity].
Qed.

(** Claim C8.  With a setting name: SETTING_NOT_FOUND (carrying the name)
    when the connection has no setting under that name; otherwise the
    entry of [secrets] under that name, when there is one, is what
    [nm_setting_update_secrets] gets, and [secrets] itself when there is
    none.  Without a name: the entries are taken in turn, and at the first
    one whose setting is absent from the connection (those before it
    having been updated with success) the call fails with
    SETTING_NOT_FOUND carrying that entry's name.  The signal
    "secrets-updated", with the name given (or NULL), is emitted exactly
    when the call succeeds. *)
Theorem update_secrets_spec (reg : Registry) (c : NMConnection NMSetting)
    (secrets : list (string * gpointer)) :
  (forall name,
     nm_connection_get_setting_by_name reg c name = None ->
     nm_connection_update_secrets reg c (Some name) secrets =
     (c, FALSE (NM_CONNECTION_ERROR NM_CONNECTION_ERROR_SETTING_NOT_FOUND
                  name), []))
  /\ (forall name setting,
        nm_connection_get_setting_by_name reg c name = Some setting ->
        let delegated :=
          match g_hash_table_lookup secrets name with
          | Some nested => nested
          | None => PHash secrets
          end in
        let r := nm_setting_update_secrets setting delegated in
        nm_connection_update_secrets reg c (Some name) secrets =
        (setting_written reg c name (fst r), snd r,
         if succeeded (snd r) then [SECRETS_UPDATED (Some name)] else []))
  /\ (forall pre name tmp post c',
        secrets = (pre ++ (name, tmp) :: post)%list ->
        update_secrets_all reg c pre = (c', TRUE) ->
        nm_connection_get_setting_by_name reg c name = None ->
        nm_connection_update_secrets reg c None secrets =
        (c', FALSE (NM_CONNECTION_ERROR NM_CONNECTION_ERROR_SETTING_NOT_FOUND
                      name), []))
  /\ (forall setting_name,
        let '(_, success, signals) :=
          nm_connection_update_secrets reg c setting_name secrets in
        signals =
        if succeeded success then [SECRETS_UPDATED setting_name] else []).
Proof.
  split; [|split; [|split]].
  - intros name Hnone. unfold nm_connection_update_secrets.
    now rewrite Hnone.
  - intros name setting Hget delegated r.
    unfold nm_connection_update_secrets. rewrite Hget.
    subst r delegated.
    destruct (nm_setting_update_secrets setting _) as [setting' success].
    reflexivity.
  - intros pre name tmp post c' -> Hpre Hnone.
    unfold nm_connection_update_secrets.
    rewrite update_secrets_all_app, Hpre. simpl.
    assert (Hnone' : nm_connection_get_setting_by_name reg c' name = None).
    { apply get_setting_by_name_None_keys with (c := c); [|exact Hnone].
      pose proof (update_secrets_all_keys reg pre c) as Hk.
      now rewrite Hpre in Hk. }
    now rewrite Hnone'.
  - intros [name|]; unfold nm_connection_update_secrets.
    + destruct (nm_connection_get_setting_by_name reg c name);
        [|reflexivity].
      destruct (nm_setting_update_secrets n _) as [setting' success].
      reflexivity.
    + destruct (update_secrets_all reg c secrets) as [c' success].
      reflexivity.
Qed.

(** Claim C10.  Without a setting name and with an empty table the loop
    body never runs: the call returns TRUE ([success] was set before the
    loop), the connection is as it was, and "secrets-updated" is emitted
    with a NULL name. *)
Theorem update_secrets_empty_bulk (reg : Registry)
    (c : NMConnection NMSetting) :
  nm_connection_update_secrets reg c None []
  = (c, TRUE, [SECRETS_UPDATED None]).
Proof.
  unfold nm_connection_update_secrets.
  (* no entry: the loop returns the connection and the initial TRUE *)
  change (update_secrets_all reg c []) with (c, TRUE).
  reflexivity.
Qed.

End SecretsFacts.

Lemma update_secrets_spec_witness :
  let psk := [("psk"%string, PValue (Kinds.str "x"))] in
  let wsec :=
    {| Kinds.kind := Kinds.T_WIRELESS_SECURITY; Kinds.props := [] |} in
  let name := "802-11-wireless-security"%string in
  nm_connection_update_secrets Kinds.registry
    (Kinds.connection_of [Kinds.s_con "802-3-ethernet"; Kinds.s_wired])
    (Some name) psk
  = (Kinds.connection_of [Kinds.s_con "802-3-ethernet"; Kinds.s_wired],
     FALSE (NM_CONNECTION_ERROR NM_CONNECTION_ERROR_SETTING_NOT_FOUND name),
     [])
  /\ snd (nm_connection_update_secrets Kinds.registry
            (Kinds.connection_of [Kinds.s_con "802-3-ethernet"; wsec])
            (Some name) [(name, PHash psk)])
     = [SECRETS_UPDATED (Some name)]
  /\ nm_connection_update_secrets Kinds.registry
       (Kinds.connection_of [wsec]) None
       [(name, PHash psk); ("ppp"%string, PHash psk)]
     = (Kinds.connection_of
          [{| Kinds.kind := Kinds.T_WIRELESS_SECURITY;
              Kinds.props := [("psk"%string, Kinds.str "x")] |}],
        FALSE (NM_CONNECTION_ERROR NM_CONNECTION_ERROR_SETTING_NOT_FOUND
                 "ppp"), []).
Proof.
  intros psk wsec name. split; [|split].
  - apply (proj1 (update_secrets_spec Kinds.registry _ psk)). reflexivity.
  - rewrite (proj1 (proj2 (update_secrets_spec Kinds.registry
                             (Kinds.connection_of
                                [Kinds.s_con "802-3-ethernet"; wsec])
                             [(name, PHash psk)])) name wsec eq_refl).
    reflexivity.
  - apply (proj1 (proj2 (proj2 (update_secrets_spec Kinds.registry
                                  (Kinds.connection_of [wsec])
                                  [(name, PHash psk);
                                   ("ppp"%string, PHash psk)])))
             [(name, PHash psk)] "ppp"%string (PHash psk) []);
      reflexivity.
Defined.

(** ** Which setting needs secrets *)


Section NeedSecretsFacts.
Context {NMSetting : Type} `{NMSettingClass NMSetting}.
Variable reg : Registry.

Notation prio := (_get_setting_priority reg).
Notation ins := (fun acc x =>
  g_slist_insert_sorted acc x (setting_priority_compare reg)).
Notation ascending := (StronglySorted (fun a b => prio a <= prio b)).
Notation pick := (choose reg).

Lemma compare_positive (a b : NMSetting) :
  (0 <? setting_priority_compare reg a b)%Z = (prio b <? prio a).
Proof.
  unfold setting_priority_compare.
  destruct (prio a <? prio b) eqn:E1.
  - apply N.ltb_lt in E1. symmetry. apply N.ltb_ge. lia.
  - destruct (prio a =? prio b) eqn:E2.
    + apply N.eqb_eq in E2. symmetry. apply N.ltb_ge. lia.
    + apply N.ltb_ge in E1. apply N.eqb_neq in E2.
      symmetry. apply N.ltb_lt. lia.
Qed.

Lemma insert_sorted_perm (acc : list NMSetting) x :
  Permutation (ins acc x) (x :: acc).
Proof.
  induction acc as [|y t IH]; simpl; [reflexivity|].
  destruct (0 <? setting_priority_compare reg x y)%Z; [|reflexivity].
  rewrite IH. apply perm_swap.
Qed.

Lemma insert_sorted_ascending (acc : list NMSetting) x :
  ascending acc -> ascending (ins acc x).
Proof.
  induction acc as [|y t IH]; simpl; intros Hs.
  - repeat constructor.
  - rewrite compare_positive.
    inversion Hs as [|? ? Ht Hy]; subst.
    destruct (prio y <? prio x) eqn:E.
    + apply N.ltb_lt in E. constructor; [now apply IH|].
      apply Forall_forall. intros z Hz.
      apply (Permutation_in _ (insert_sorted_perm t x)) in Hz.
      destruct Hz as [<-|Hz]; [lia|].
      rewrite Forall_forall in Hy. now apply Hy.
    + apply N.ltb_ge in E. constructor; [exact Hs|].
      constructor; [exact E|].
      apply Forall_forall. intros z Hz.
      rewrite Forall_forall in Hy. specialize (Hy z Hz). lia.
Qed.

Lemma insert_sorted_filter (acc : list NMSetting) x p :
  filter (fun s => prio s =? p) (ins acc x) =
  if prio x =? p then x :: filter (fun s => prio s =? p) acc
  else filter (fun s => prio s =? p) acc.
Proof.
  induction acc as [|y t IH]; simpl; [reflexivity|].
  rewrite compare_positive.
  destruct (prio y <? prio x) eqn:E; simpl; [|reflexivity].
  rewrite IH. apply N.ltb_lt in E.
  destruct (prio x =? p) eqn:Ex; [|reflexivity].
  apply N.eqb_eq in Ex.
  destruct (prio y =? p) eqn:Ey; [|reflexivity].
  apply N.eqb_eq in Ey. lia.
Qed.

Lemma find_insert_sorted (acc : list NMSetting) x :
  ascending acc ->
  find needs_secrets (ins acc x) = pick (find needs_secrets acc) x.
Proof.
  induction acc as [|y t IH]; intros Hs.
  - simpl. unfold choose. now destruct (needs_secrets x).
  - inversion Hs as [|? ? Ht Hy]; subst.
    cbn [g_slist_insert_sorted]. rewrite compare_positive.
    destruct (prio y <? prio x) eqn:E.
    + cbn [find]. destruct (needs_secrets y) eqn:Ey.
      * unfold choose. rewrite E. now destruct (needs_secrets x).
      * now apply IH.
    + unfold choose.
      change (find needs_secrets (x :: y :: t))
        with (if needs_secrets x then Some x
              else find needs_secrets (y :: t)).
      destruct (needs_secrets x) eqn:Ex; [|reflexivity].
      destruct (find needs_secrets (y :: t)) as [f|] eqn:Ef; [|reflexivity].
      apply find_some in Ef. destruct Ef as [Hin _].
      apply N.ltb_ge in E.
      assert (Hf : prio x <= prio f).
      { destruct Hin as [<-|Hin]; [exact E|].
        rewrite Forall_forall in Hy. specialize (Hy f Hin). lia. }
      apply N.ltb_ge in Hf. now rewrite Hf.
Qed.

Lemma fold_insert_sorted (l : list NMSetting) : forall acc,
  ascending acc ->
  let order := fold_left ins l acc in
  ascending order
  /\ Permutation order (rev l ++ acc)
  /\ find needs_secrets order = fold_left pick l (find needs_secrets acc)
  /\ forall p, filter (fun s => prio s =? p) order =
               (rev (filter (fun s => prio s =? p) l)
                ++ filter (fun s => prio s =? p) acc)%list.
Proof.
  induction l as [|x l IH]; intros acc Hs; simpl.
  - repeat split; auto.
  - destruct (IH (ins acc x) (insert_sorted_ascending x Hs))
      as (H1 & H2 & H3 & H4).
    repeat split.
    + exact H1.
    + rewrite H2. rewrite <- app_assoc. apply Permutation_app_head.
      simpl. apply insert_sorted_perm.
    + rewrite H3. now rewrite find_insert_sorted.
    + intros p. rewrite H4, insert_sorted_filter.
      destruct (prio x =? p); simpl; [|reflexivity].
      now rewrite <- app_assoc.
Qed.

Lemma choose_keeps (l : list NMSetting) : forall s,
  (forall t, In t l -> needs_secrets t = true -> prio s < prio t) ->
  fold_left pick l (Some s) = Some s.
Proof.
  induction l as [|x l IH]; intros s Hlow; simpl; [reflexivity|].
  unfold choose at 2. destruct (needs_secrets x) eqn:Ex.
  - assert (Hlt : prio s < prio x) by (apply Hlow; simpl; auto).
    apply N.ltb_lt in Hlt. rewrite Hlt. apply IH.
    intros t Ht. apply Hlow. now right.
  - apply IH. intros t Ht. apply Hlow. now right.
Qed.

Lemma choose_from (l : list NMSetting) : forall best,
  match fold_left pick l best with
  | Some f => (best = Some f \/ (In f l /\ needs_secrets f = true))
  | None => best = None /\ Forall (fun s => needs_secrets s = false) l
  end.
Proof.
  induction l as [|x l IH]; intros best; simpl.
  - destruct best; auto.
  - specialize (IH (pick best x)).
    destruct (fold_left pick l (pick best x)) as [f|].
    + destruct IH as [Hc|[Hin Hn]]; [|right; auto].
      unfold choose in Hc.
      destruct (needs_secrets x) eqn:Ex; [|now left].
      destruct best as [b|].
      * destruct (prio b <? prio x); [now left|].
        injection Hc as <-. right. auto.
      * injection Hc as <-. right. auto.
    + destruct IH as [Hc Hall]. unfold choose in Hc.
      destruct (needs_secrets x) eqn:Ex.
      * destruct best as [b|]; [destruct (prio b <? prio x)|]; discriminate.
      * split; [exact Hc|]. now constructor.
Qed.

Lemma first_needing_secrets_find (l : list NMSetting) :
  first_needing_secrets l =
  match find needs_secrets l with
  | Some s =>
      match nm_setting_need_secrets s with
      | Some hints => Some (nm_setting_get_name s, hints)
      | None => None
      end
  | None => None
  end.
Proof.
  induction l as [|x l IH]; simpl; [reflexivity|].
  unfold needs_secrets at 1.
  destruct (nm_setting_need_secrets x) eqn:E; [now rewrite E|exact IH].
Qed.

End NeedSecretsFacts.

Section NeedSecrets.
Context {NMSetting : Type} `{NMSettingClass NMSetting}.
Variable reg : Registry.

Notation prio := (_get_setting_priority reg).

Lemma find_ascending_least (l : list NMSetting) f :
  StronglySorted (fun a b => prio a <= prio b) l ->
  find needs_secrets l = Some f ->
  forall t, In t l -> needs_secrets t = true -> prio f <= prio t.
Proof.
  induction l as [|x l IH]; simpl; [discriminate|].
  intros Hs Hf t Hin Ht. inversion Hs as [|? ? Hl Hx]; subst.
  destruct (needs_secrets x) eqn:Ex.
  - injection Hf as <-. destruct Hin as [<-|Hin]; [lia|].
    rewrite Forall_forall in Hx. now apply Hx.
  - destruct Hin as [<-|Hin]; [congruence|]. now apply IH.
Qed.

Lemma needs_secrets_true (s : NMSetting) :
  needs_secrets s = true <-> nm_setting_need_secrets s <> None.
Proof.
  unfold needs_secrets. destruct (nm_setting_need_secrets s).
  - split; [discriminate|reflexivity].
  - split; [discriminate|congruence].
Qed.

(** Claim C4, as the code has it.  The settings are considered in
    ascending order of priority, those of equal priority in the reverse of
    the order in which the table yields them; the result is the name and
    the hints of the first setting in that order that needs secrets, and
    NULL when no setting does.  So the answer is the setting of lowest
    priority that reports a need (among several of that priority, the one
    the table yields last); if a priority-1 and a priority-3 setting both
    report a need, the priority-1 setting is named. *)
Theorem need_secrets_priority_order (c : NMConnection NMSetting) :
  let order := settings_in_priority_order reg c in
  let table := values (settings c) in
  (StronglySorted (fun a b => prio a <= prio b) order
   /\ Permutation order table
   /\ forall p, filter (fun s => prio s =? p) order
                = rev (filter (fun s => prio s =? p) table))
  /\ nm_connection_need_secrets reg c = first_needing_secrets order
  /\ (nm_connection_need_secrets reg c = None <->
      Forall (fun s => nm_setting_need_secrets s = None) table)
  /\ (forall pre s post hints,
        table = (pre ++ s :: post)%list ->
        nm_setting_need_secrets s = Some hints ->
        (forall t, In t pre -> nm_setting_need_secrets t <> None ->
                   prio s <= prio t) ->
        (forall t, In t post -> nm_setting_need_secrets t <> None ->
                   prio s < prio t) ->
        nm_connection_need_secrets reg c
        = Some (nm_setting_get_name s, hints))
  /\ (forall s hints,
        In s table ->
        nm_setting_need_secrets s = Some hints ->
        (forall t, In t table -> nm_setting_need_secrets t <> None ->
                   t = s \/ prio s < prio t) ->
        nm_connection_need_secrets reg c
        = Some (nm_setting_get_name s, hints)).
Proof.
  intros order table.
  destruct (fold_insert_sorted reg (values (settings c))
              (acc := []) (SSorted_nil _)) as (Hasc & Hperm & Hfind & Hfilt).
  fold (settings_in_priority_order reg c) in Hasc, Hperm, Hfind, Hfilt.
  fold order in Hasc, Hperm, Hfind, Hfilt. fold table in Hperm, Hfind, Hfilt.
  rewrite app_nil_r in Hperm. simpl in Hfind.
  assert (Hperm' : Permutation order table).
  { rewrite Hperm. symmetry. apply Permutation_rev. }
  assert (Hres : nm_connection_need_secrets reg c =
                 match fold_left (choose reg) table None with
                 | Some s =>
                     match nm_setting_need_secrets s with
                     | Some hints => Some (nm_setting_get_name s, hints)
                     | None => None
                     end
                 | None => None
                 end).
  { unfold nm_connection_need_secrets. fold order.
    now rewrite first_needing_secrets_find, Hfind. }
  split; [|split; [reflexivity|split; [|split]]].
  - split; [exact Hasc|]. split; [exact Hperm'|].
    intros p. rewrite Hfilt. simpl. apply app_nil_r.
  - rewrite Hres. pose proof (choose_from reg table None) as Hc.
    destruct (fold_left (choose reg) table None) as [f|].
    + destruct Hc as [Hc|[Hin Hn]]; [discriminate|].
      apply needs_secrets_true in Hn.
      destruct (nm_setting_need_secrets f) eqn:Ef; [|congruence].
      split; [discriminate|]. intros Hall. rewrite Forall_forall in Hall.
      specialize (Hall f Hin). congruence.
    + destruct Hc as [_ Hall]. split; [intros _|reflexivity].
      apply Forall_forall. intros s Hin. rewrite Forall_forall in Hall.
      specialize (Hall s Hin). unfold needs_secrets in Hall.
      now destruct (nm_setting_need_secrets s).
  - intros pre s post hints Htab Hs Hpre Hpost. rewrite Hres, Htab.
    rewrite fold_left_app. simpl.
    assert (Hmid : choose reg (fold_left (choose reg) pre None) s = Some s).
    { unfold choose at 1.
      assert (Hn : needs_secrets s = true)
        by (apply needs_secrets_true; congruence).
      rewrite Hn. pose proof (choose_from reg pre None) as Hc.
      destruct (fold_left (choose reg) pre None) as [f|]; [|reflexivity].
      destruct Hc as [Hc|[Hin Hf]]; [discriminate|].
      apply needs_secrets_true in Hf. specialize (Hpre f Hin Hf).
      apply N.ltb_ge in Hpre. now rewrite Hpre. }
    rewrite Hmid, choose_keeps.
    + now rewrite Hs.
    + intros t Hin Ht. apply Hpost; [exact Hin|].
      now apply needs_secrets_true.
  - intros s hints Hin Hs Honly.
    unfold nm_connection_need_secrets. fold order.
    rewrite first_needing_secrets_find.
    assert (Hn : needs_secrets s = true)
      by (apply needs_secrets_true; congruence).
    assert (Hin' : In s order)
      by (apply (Permutation_in _ (Permutation_sym Hperm')); exact Hin).
    destruct (find needs_secrets order) as [f|] eqn:Ef.
    + pose proof (find_ascending_least Hasc Ef s Hin' Hn) as Hle.
      apply find_some in Ef. destruct Ef as [Hfin Hfn].
      apply (Permutation_in _ Hperm') in Hfin.
      apply needs_secrets_true in Hfn.
      destruct (Honly f Hfin Hfn) as [->|Hlt]; [now rewrite Hs|lia].
    + exfalso. apply (find_none _ _ Ef) in Hin'. congruence.
Qed.

End NeedSecrets.

Lemma need_secrets_priority_order_witness :
  nm_connection_need_secrets Kinds.registry
    (Kinds.connection_of
       [Kinds.s_con "802-3-ethernet"; Kinds.needing Kinds.T_PPP "password";
        Kinds.needing Kinds.T_WIRED "pin"])
  = Some ("802-3-ethernet"%string, ["pin"%string])
  /\ nm_connection_need_secrets Kinds.registry
       (Kinds.connection_of
          [Kinds.needing Kinds.T_WIRELESS_SECURITY "psk";
           Kinds.needing Kinds.T_8021X "password"])
     = Some ("802-1x"%string, ["password"%string]).
Proof.
  split.
  - change "802-3-ethernet"%string
      with (nm_setting_get_name (Kinds.needing Kinds.T_WIRED "pin")).
    apply (proj2 (proj2 (proj2 (proj2
             (need_secrets_priority_order Kinds.registry
                (Kinds.connection_of
                   [Kinds.s_con "802-3-ethernet";
                    Kinds.needing Kinds.T_PPP "password";
                    Kinds.needing Kinds.T_WIRED "pin"])))))
             (Kinds.needing Kinds.T_WIRED "pin") ["pin"%string]).
    + right. right. left. reflexivity.
    + reflexivity.
    + intros t [<-|[<-|[<-|[]]]] Ht.
      * exfalso. apply Ht. reflexivity.
      * right. reflexivity.
      * left. reflexivity.
  - change "802-1x"%string
      with (nm_setting_get_name (Kinds.needing Kinds.T_8021X "password")).
    apply (proj1 (proj2 (proj2 (proj2
             (need_secrets_priority_order Kinds.registry
                (Kinds.connection_of
                   [Kinds.needing Kinds.T_WIRELESS_SECURITY "psk";
                    Kinds.needing Kinds.T_8021X "password"])))))
             [Kinds.needing Kinds.T_WIRELESS_SECURITY "psk"]
             (Kinds.needing Kinds.T_8021X "password") []
             ["password"%string]).
    + reflexivity.
    + reflexivity.
    + intros t [<-|[]] _. vm_compute. discriminate.
    + intros t [].
Defined.

(** Claim C4 as stated fails on ties.  The table yields the wireless
    security setting and then the 802.1x setting, both of priority 2 and
    both needing secrets: in the stable order the first is asked first,
    but the function names the second. *)
Lemma need_secrets_ties_reversed :
  let wsec := Kinds.needing Kinds.T_WIRELESS_SECURITY "psk" in
  let dot1x := Kinds.needing Kinds.T_8021X "password" in
  let c := Kinds.connection_of [wsec; dot1x] in
  values (settings c) = [wsec; dot1x]
  /\ _get_setting_priority Kinds.registry wsec = 2
  /\ _get_setting_priority Kinds.registry dot1x = 2
  /\ stable_priority_order Kinds.registry c = [wsec; dot1x]
  /\ first_needing_secrets (stable_priority_order Kinds.registry c)
     = Some ("802-11-wireless-security"%string, ["psk"%string])
  /\ settings_in_priority_order Kinds.registry c = [dot1x; wsec]
  /\ nm_connection_need_secrets Kinds.registry c
     = Some ("802-1x"%string, ["password"%string]).
Proof. repeat split. Qed.

(** ** Differences *)

Section DiffFacts.
Context {NMSetting : Type} `{NMSettingClass NMSetting}.

Lemma insert_not_nil {K V : Type} `{KeyEq K} (h : GHashTable K V) k v :
  g_hash_table_insert h k v <> [].
Proof.
  destruct h as [|[k' v'] t]; simpl; [discriminate|].
  destruct (key_eqb k' k); discriminate.
Qed.

Lemma size_0_nil {K V : Type} (h : GHashTable K V) :
  g_hash_table_size h = 0%nat <-> h = [].
Proof. apply length_zero_iff_nil. Qed.

Lemma record_differences_nil (l : list (string * N)) : forall t : DiffHash,
  fold_left record_difference l t = [] <-> l = [] /\ t = [].
Proof.
  induction l as [|d l IH]; intros t; simpl.
  - split; [auto|tauto].
  - rewrite IH. split.
    + intros [_ Hins]. exfalso. unfold record_difference in Hins.
      exact (insert_not_nil _ _ _ Hins).
    + intros [Hd _]. discriminate.
Qed.

Lemma setting_diff_new (a : NMSetting) b flags invert :
  nm_setting_diff a b flags invert None = None <->
  nm_setting_diff_properties a b flags invert = [].
Proof.
  unfold nm_setting_diff.
  destruct (Nat.eqb _ 0) eqn:E.
  - apply Nat.eqb_eq, size_0_nil, record_differences_nil in E.
    tauto.
  - apply Nat.eqb_neq in E. split; [discriminate|]. intros Hnil.
    exfalso. apply E. apply size_0_nil, record_differences_nil.
    split; [exact Hnil|reflexivity].
Qed.

Lemma diff_one_setting_nil b flags invert (diffs : DiffsHash)
    (a_setting : NMSetting) :
  diff_one_setting b flags invert diffs a_setting = [] <->
  diffs = []
  /\ nm_setting_diff_properties a_setting (counterpart b a_setting)
       flags invert = [].
Proof.
  unfold diff_one_setting. fold (counterpart b a_setting).
  destruct diffs as [|kv diffs'].
  - simpl g_hash_table_lookup. cbv iota.
    destruct (nm_setting_diff a_setting (counterpart b a_setting) flags
                invert None) as [r|] eqn:E.
    + split.
      * intros Hins. exfalso. exact (insert_not_nil _ _ _ Hins).
      * intros [_ Hnil]. apply setting_diff_new in Hnil. congruence.
    + apply setting_diff_new in E. tauto.
  - split; [|intros [Hd _]; discriminate].
    intros Hnil. exfalso.
    destruct (nm_setting_diff a_setting (counterpart b a_setting) flags
                invert (g_hash_table_lookup (kv :: diffs')
                          (nm_setting_get_name a_setting))) as [r|];
      [|discriminate].
    destruct (g_hash_table_lookup (kv :: diffs')
                (nm_setting_get_name a_setting));
      exact (insert_not_nil _ _ _ Hnil).
Qed.

Lemma diff_one_connection_nil (a : NMConnection NMSetting) b flags invert
    (diffs : DiffsHash) :
  diff_one_connection a b flags invert diffs = [] <->
  diffs = []
  /\ Forall (fun s => nm_setting_diff_properties s (counterpart b s)
                        flags invert = [])
       (values (settings a)).
Proof.
  unfold diff_one_connection.
  generalize (values (settings a)) as l. intros l. revert diffs.
  induction l as [|s l IH]; intros diffs; simpl.
  - split; [auto|tauto].
  - rewrite IH, diff_one_setting_nil. split.
    + intros [[Hd Hs] Hl]. split; [exact Hd|now constructor].
    + intros [Hd Hall]. inversion Hall; subst. tauto.
Qed.

Lemma merged_diffs_nil (a : NMConnection NMSetting) b flags :
  merged_diffs a b flags = [] <->
  Forall (fun s => nm_setting_diff_properties s (counterpart b s)
                     flags false = [])
    (values (settings a))
  /\ match b with
     | Some b' =>
         Forall (fun s => nm_setting_diff_properties s
                            (counterpart (Some a) s) flags true = [])
           (values (settings b'))
     | None => True
     end.
Proof.
  unfold merged_diffs. destruct b as [b'|].
  - rewrite !diff_one_connection_nil. tauto.
  - rewrite diff_one_connection_nil. tauto.
Qed.

End DiffFacts.

Section DiffCompare.
Context {NMSetting : Type} `{NMSettingClass NMSetting}.

Notation EXACT := NM_SETTING_COMPARE_FLAG_EXACT.

Lemma consistent_get_value (c : NMConnection NMSetting) s :
  table_consistent c -> In s (values (settings c)) ->
  nm_connection_get_setting c (G_OBJECT_TYPE s) = Some s.
Proof.
  intros [Hnd Hkeys] Hin. unfold values in Hin.
  apply in_map_iff in Hin. destruct Hin as ([k v] & <- & Hin).
  rewrite Forall_forall in Hkeys. pose proof (Hkeys _ Hin) as Hk.
  simpl in *. subst k. now apply In_lookup.
Qed.

Lemma consistent_get_kind (c : NMConnection NMSetting) t s :
  table_consistent c -> nm_connection_get_setting c t = Some s ->
  G_OBJECT_TYPE s = t /\ In s (values (settings c)).
Proof.
  intros [_ Hkeys] Hget. apply lookup_In in Hget.
  rewrite Forall_forall in Hkeys. pose proof (Hkeys _ Hget) as Hk.
  simpl in Hk. split; [now symmetry|].
  unfold values. change s with (snd (t, s)). now apply in_map.
Qed.

Lemma no_difference_matched (b : NMConnection NMSetting) invert s :
  diff_matches_compare -> table_consistent b ->
  nm_setting_diff_properties s (counterpart (Some b) s) EXACT invert = []
  <-> matched_in b EXACT s.
Proof.
  intros (D1 & D2 & _) Hb. unfold counterpart, matched_in.
  destruct (nm_connection_get_setting b (G_OBJECT_TYPE s)) as [cmp|] eqn:E.
  - apply (consistent_get_kind _ Hb) in E. destruct E as [Hkind _].
    rewrite D2 by (now symmetry). split.
    + intros Hc. now exists cmp.
    + intros (cmp' & [= <-] & Hc). exact Hc.
  - split; [intros Hnil; exfalso; exact (D1 _ _ Hnil)|].
    intros (cmp & Hn & _). discriminate.
Qed.

Lemma matched_incl_keys (a b : NMConnection NMSetting) flags :
  table_consistent a ->
  Forall (matched_in b flags) (values (settings a)) ->
  incl (keys (settings a)) (keys (settings b)).
Proof.
  intros [_ Hkeys] Hall k Hin. unfold keys in Hin.
  apply in_map_iff in Hin. destruct Hin as ([k' s] & <- & Hin).
  rewrite Forall_forall in Hkeys, Hall.
  pose proof (Hkeys _ Hin) as Hk. simpl in *. subst k'.
  assert (Hs : In s (values (settings a))).
  { unfold values. change s with (snd (G_OBJECT_TYPE s, s)).
    now apply in_map. }
  destruct (Hall s Hs) as (cmp & Hget & _).
  unfold nm_connection_get_setting in Hget.
  destruct (in_dec N.eq_dec (G_OBJECT_TYPE s) (keys (settings b)))
    as [Hyes|Hno]; [exact Hyes|].
  apply lookup_None_iff in Hno. unfold GType in *. congruence.
Qed.

Lemma keys_length {K V : Type} (h : GHashTable K V) :
  List.length (keys h) = g_hash_table_size h.
Proof. apply length_map. Qed.

(** With one setting per kind on both sides, the size test of
    [nm_connection_compare] does the work of the scan from [b] to [a]. *)
Lemma both_scans_iff_size (a b : NMConnection NMSetting) :
  diff_matches_compare -> table_consistent a -> table_consistent b ->
  (Forall (matched_in b EXACT) (values (settings a))
   /\ Forall (matched_in a EXACT) (values (settings b)))
  <->
  (Forall (matched_in b EXACT) (values (settings a))
   /\ g_hash_table_size (settings a) = g_hash_table_size (settings b)).
Proof.
  intros (_ & _ & D3 & _) Ha Hb. split.
  - intros [Hab Hba]. split; [exact Hab|].
    pose proof (matched_incl_keys Ha Hab) as Hi1.
    pose proof (matched_incl_keys Hb Hba) as Hi2.
    apply (NoDup_incl_length (proj1 Ha)) in Hi1.
    apply (NoDup_incl_length (proj1 Hb)) in Hi2.
    rewrite !keys_length in Hi1, Hi2. lia.
  - intros [Hab Hsize]. split; [exact Hab|].
    pose proof (matched_incl_keys Ha Hab) as Hi1.
    assert (Hi2 : incl (keys (settings b)) (keys (settings a))).
    { apply NoDup_length_incl; [exact (proj1 Ha)| |exact Hi1].
      rewrite !keys_length. lia. }
    apply Forall_forall. intros s Hs.
    assert (Hk : In (G_OBJECT_TYPE s) (keys (settings a))).
    { apply Hi2. pose proof (consistent_get_value _ Hb Hs) as Hg.
      apply lookup_In in Hg. unfold keys.
      change (G_OBJECT_TYPE s) with (fst (G_OBJECT_TYPE s, s)).
      now apply in_map. }
    destruct (nm_connection_get_setting a (G_OBJECT_TYPE s)) as [cmp|] eqn:E.
    2:{ apply lookup_None_iff in E. contradiction. }
    exists cmp. split; [exact E|].
    destruct (consistent_get_kind _ Ha E) as [Hkind Hcmp].
    rewrite Forall_forall in Hab.
    destruct (Hab cmp Hcmp) as (cmp' & Hget & Hc).
    rewrite Hkind, (consistent_get_value _ Hb Hs) in Hget.
    injection Hget as <-. now rewrite D3.
Qed.

(** Claim C9, as the code has it.  The diff of a connection with itself
    is (TRUE, NULL).  For all [a] and [b] the diff returns TRUE exactly
    when [*out_settings] stays NULL, which for two distinct objects is
    when the table merged from the scan of [a] against [b] and the
    inverted scan of [b] against [a] has no entry.  For a non-NULL [b],
    tables that hold one setting per kind, and kinds whose diff and
    compare agree under the exact flags, the result is that of
    [nm_connection_compare]; against a NULL [b] the diff returns TRUE
    exactly when [a] has no setting. *)
Theorem connection_diff_spec :
  (forall (c : NMConnection NMSetting) flags,
     nm_connection_diff c (Some c) flags = (true, None))
  /\ (forall (a : NMConnection NMSetting) b flags,
        fst (nm_connection_diff a b flags) = true
        <-> snd (nm_connection_diff a b flags) = None)
  /\ (forall (a : NMConnection NMSetting) b flags,
        match b with Some b' => self a <> self b' | None => True end ->
        (fst (nm_connection_diff a b flags) = true
         <-> g_hash_table_size (merged_diffs a b flags) = 0%nat))
  /\ (forall (a b : NMConnection NMSetting),
        diff_matches_compare ->
        table_consistent a -> table_consistent b ->
        (self a = self b -> a = b) ->
        fst (nm_connection_diff a (Some b) EXACT)
        = nm_connection_compare (Some a) (Some b) EXACT)
  /\ (forall (a : NMConnection NMSetting),
        diff_matches_compare ->
        (fst (nm_connection_diff a None EXACT) = true
         <-> values (settings a) = [])).
Proof.
  split; [|split; [|split; [|split]]].
  - intros c flags. unfold nm_connection_diff. now rewrite N.eqb_refl.
  - intros a b flags. unfold nm_connection_diff.
    destruct (match b with Some b' => self a =? self b' | None => false end);
      [simpl; tauto|].
    destruct (Nat.eqb _ 0); simpl; split; congruence.
  - intros a b flags Hdistinct. unfold nm_connection_diff.
    assert (E : match b with Some b' => self a =? self b' | None => false end
                = false).
    { destruct b as [b'|]; [now apply N.eqb_neq|reflexivity]. }
    rewrite E.
    destruct (Nat.eqb (g_hash_table_size (merged_diffs a b flags)) 0) eqn:Es;
      simpl.
    + apply Nat.eqb_eq in Es. tauto.
    + apply Nat.eqb_neq in Es. split; [discriminate|contradiction].
  - intros a b HD Ha Hb Hsame. apply eq_iff_eq_true.
    rewrite compare_some_some. unfold nm_connection_diff.
    destruct (self a =? self b) eqn:E.
    + apply N.eqb_eq in E. specialize (Hsame E). subst b. simpl.
      split; [intros _|reflexivity]. split; [|reflexivity].
      apply Forall_forall. intros s Hs. exists s.
      split; [now apply consistent_get_value|].
      destruct HD as (_ & _ & _ & D4). apply D4.
    + rewrite <- both_scans_iff_size by assumption.
      destruct (Nat.eqb (g_hash_table_size (merged_diffs a (Some b) EXACT))
                  0) eqn:Es; simpl.
      * apply Nat.eqb_eq, size_0_nil, merged_diffs_nil in Es.
        destruct Es as [Hf Hr]. split; [intros _|reflexivity]. split.
        -- eapply Forall_impl; [|exact Hf]. intros s Hs.
           now apply (no_difference_matched false s HD Hb).
        -- eapply Forall_impl; [|exact Hr]. intros s Hs.
           now apply (no_difference_matched true s HD Ha).
      * apply Nat.eqb_neq in Es. split; [discriminate|].
        intros [Hf Hr]. exfalso. apply Es.
        apply size_0_nil, merged_diffs_nil. split.
        -- eapply Forall_impl; [|exact Hf]. intros s Hs.
           now apply (no_difference_matched false s HD Hb).
        -- eapply Forall_impl; [|exact Hr]. intros s Hs.
           now apply (no_difference_matched true s HD Ha).
  - intros a (D1 & _). unfold nm_connection_diff.
    destruct (Nat.eqb (g_hash_table_size (merged_diffs a None EXACT)) 0)
      eqn:Es; simpl.
    + apply Nat.eqb_eq, size_0_nil, merged_diffs_nil in Es.
      destruct Es as [Hf _]. split; [intros _|reflexivity].
      destruct (values (settings a)) as [|s l]; [reflexivity|].
      inversion Hf as [|? ? Hs _]; subst. exfalso. exact (D1 _ _ Hs).
    + apply Nat.eqb_neq in Es. split; [discriminate|]. intros Hnil.
      exfalso. apply Es. apply size_0_nil, merged_diffs_nil.
      rewrite Hnil. split; constructor.
Qed.

End DiffCompare.

Lemma gvalue_eqb_sym (a b : GValue) :
  Kinds.gvalue_eqb a b = Kinds.gvalue_eqb b a.
Proof.
  unfold Kinds.gvalue_eqb. rewrite N.eqb_sym.
  destruct (list_eq_dec string_dec (g_value_contents a) (g_value_contents b));
    destruct (list_eq_dec string_dec (g_value_contents b)
                (g_value_contents a)); congruence.
Qed.

Lemma props_eqb_sym (a : PropHash) : forall b,
  Kinds.props_eqb a b = Kinds.props_eqb b a.
Proof.
  induction a as [|[k v] a IH]; intros [|[k' v'] b]; simpl; auto.
  now rewrite String.eqb_sym, gvalue_eqb_sym, IH.
Qed.

Lemma props_eqb_refl (a : PropHash) : Kinds.props_eqb a a = true.
Proof.
  induction a as [|[k v] a IH]; simpl; [reflexivity|].
  rewrite String.eqb_refl, IH. unfold Kinds.gvalue_eqb.
  rewrite N.eqb_refl.
  now destruct (list_eq_dec string_dec (g_value_contents v)
                  (g_value_contents v)).
Qed.

Lemma kinds_diff_matches_compare :
  @diff_matches_compare Kinds.Setting Kinds.setting_class.
Proof.
  repeat split.
  - intros s invert. simpl. discriminate.
  - simpl. destruct (Kinds.props_eqb (Kinds.props s) (Kinds.props s'));
      [reflexivity|discriminate].
  - simpl. intros ->. reflexivity.
  - intros s s'. simpl. apply props_eqb_sym.
  - intros s. simpl. apply props_eqb_refl.
Qed.

Lemma connection_diff_spec_witness :
  let a :=
    Kinds.connection_of [Kinds.s_con "802-3-ethernet"; Kinds.s_wired] in
  let b := {| self := 2; settings := settings a; path := None |} in
  let b' := Kinds.connection_of [Kinds.s_con "802-3-ethernet"] in
  fst (nm_connection_diff a (Some b) NM_SETTING_COMPARE_FLAG_EXACT)
  = nm_connection_compare (Some a) (Some b) NM_SETTING_COMPARE_FLAG_EXACT
  /\ (fst (nm_connection_diff a (Some b) NM_SETTING_COMPARE_FLAG_EXACT) = true
      <-> g_hash_table_size
            (merged_diffs a (Some b) NM_SETTING_COMPARE_FLAG_EXACT) = 0%nat)
  /\ (fst (nm_connection_diff b' None NM_SETTING_COMPARE_FLAG_EXACT) = true
      <-> values (settings b') = []).
Proof.
  intros a b b'.
  assert (Hc : forall self0,
             table_consistent
               {| self := self0; settings := settings a; path := None |}).
  { intros self0. split; simpl.
    - repeat constructor; simpl; intuition discriminate.
    - repeat constructor. }
  split; [|split].
  - apply (proj1 (proj2 (proj2 (proj2 connection_diff_spec))) a b).
    + exact kinds_diff_matches_compare.
    + exact (Hc 1).
    + exact (Hc 2).
    + simpl. discriminate.
  - apply (proj1 (proj2 (proj2 connection_diff_spec)) a (Some b)).
    simpl. discriminate.
  - apply (proj2 (proj2 (proj2 (proj2 connection_diff_spec))) b').
    exact kinds_diff_matches_compare.
Defined.

(** Claim C9 as stated fails for a NULL second connection: the diff of a
    connection without settings against NULL is (TRUE, NULL), while the
    comparison of a connection with NULL is FALSE. *)
Lemma diff_null_differs_from_compare :
  let a : NMConnection Kinds.Setting := nm_connection_new 1 in
  nm_connection_diff a None NM_SETTING_COMPARE_FLAG_EXACT = (true, None)
  /\ nm_connection_compare (Some a) None NM_SETTING_COMPARE_FLAG_EXACT = false.
Proof. split; reflexivity. Qed.

(** ** Serialization and back *)

Section RoundTrip.
Context {NMSetting : Type} `{NMSettingClass NMSetting}.
Variable reg : Registry.

Notation ALL := NM_SETTING_HASH_FLAG_ALL.
Notation EXACT := NM_SETTING_COMPARE_FLAG_EXACT.
Notation entry_of := (fun s => (nm_setting_get_name s, serialized s)).
Notation keyed := (fun s => (G_OBJECT_TYPE s, s)).

Lemma to_hash_fold (l : list NMSetting) : forall acc : ConnectionHash,
  (forall s, In s l -> nm_setting_to_hash s ALL <> None) ->
  NoDup (map nm_setting_get_name l) ->
  (forall s, In s l -> ~ In (nm_setting_get_name s) (keys acc)) ->
  fold_left
    (fun ret setting =>
       match nm_setting_to_hash setting ALL with
       | Some setting_hash =>
           g_hash_table_insert ret (nm_setting_get_name setting) setting_hash
       | None => ret
       end) l acc
  = (acc ++ map entry_of l)%list.
Proof.
  induction l as [|x l IH]; intros acc Hsome Hnd Hfresh; simpl.
  - now rewrite app_nil_r.
  - inversion Hnd as [|? ? Hx Hnd']; subst.
    assert (Hser : nm_setting_to_hash x ALL = Some (serialized x)).
    { unfold serialized.
      destruct (nm_setting_to_hash x ALL) eqn:E; [reflexivity|].
      exfalso. apply (Hsome x); simpl; auto. }
    rewrite Hser, insert_absent.
    2:{ apply lookup_None_iff. apply Hfresh. now left. }
    rewrite IH.
    + now rewrite <- app_assoc.
    + intros s Hs. apply Hsome. now right.
    + exact Hnd'.
    + intros s Hs. unfold keys. rewrite map_app. simpl.
      intros Hin. apply in_app_or in Hin. destruct Hin as [Hin|[Heq|[]]].
      * apply (Hfresh s); [now right|exact Hin].
      * apply Hx. rewrite Heq. now apply in_map.
Qed.

Lemma from_hash_fold (l : list NMSetting) :
  forall (c0 : NMConnection NMSetting) st,
  (forall s, In s l -> kind_registered reg s /\ lossless s) ->
  NoDup (map G_OBJECT_TYPE l) ->
  (forall s, In s l -> ~ In (G_OBJECT_TYPE s) (keys (settings c0))) ->
  fst (fold_left (hash_to_connection_step reg) (map entry_of l) (c0, st))
  = set_settings c0 (settings c0 ++ map keyed l)%list.
Proof.
  induction l as [|x l IH]; intros c0 st Hok Hnd Hfresh; simpl.
  - rewrite app_nil_r. now destruct c0.
  - inversion Hnd as [|? ? Hx Hnd']; subst.
    destruct (Hok x (or_introl eq_refl)) as [[Hreg Hvalid] [Hback _]].
    rewrite Hreg.
    assert (E : (G_OBJECT_TYPE x =? 0) = false) by now apply N.eqb_neq.
    rewrite E, Hback.
    rewrite IH.
    + unfold nm_connection_add_setting, set_settings. simpl.
      rewrite insert_absent.
      2:{ apply lookup_None_iff. apply Hfresh. now left. }
      now rewrite <- app_assoc.
    + intros s Hs. apply Hok. now right.
    + exact Hnd'.
    + intros s Hs. unfold nm_connection_add_setting. simpl.
      rewrite insert_absent.
      2:{ apply lookup_None_iff. apply Hfresh. now left. }
      unfold keys. rewrite map_app. simpl.
      intros Hin. apply in_app_or in Hin. destruct Hin as [Hin|[Heq|[]]].
      * apply (Hfresh s); [now right|exact Hin].
      * apply Hx. rewrite Heq. now apply in_map.
Qed.

Lemma consistent_keyed_values (c : NMConnection NMSetting) :
  table_consistent c ->
  map keyed (values (settings c)) = settings c
  /\ map G_OBJECT_TYPE (values (settings c)) = keys (settings c).
Proof.
  intros [_ Hkeys]. unfold values, keys.
  induction (settings c) as [|[k v] t IH]; simpl; [auto|].
  inversion Hkeys as [|? ? Hk Ht]; subst. simpl in Hk. subst k.
  destruct (IH Ht) as [-> ->]. auto.
Qed.

Lemma validate_permissions_entries (l : list NMSetting) :
  (forall s, In s l -> permissions_well_typed s) ->
  validate_permissions_type (map entry_of l) = TRUE.
Proof.
  intros Hok. unfold validate_permissions_type.
  destruct (g_hash_table_lookup (map entry_of l)
              NM_SETTING_CONNECTION_SETTING_NAME) as [s_con|] eqn:E;
    [|reflexivity].
  apply lookup_In in E. apply in_map_iff in E.
  destruct E as (s & [= Hname <-] & Hin).
  destruct (g_hash_table_lookup (serialized s)
              NM_SETTING_CONNECTION_PERMISSIONS) as [v|] eqn:Ev;
    [|reflexivity].
  pose proof (Hok s Hin Hname v Ev) as Hv.
  apply orb_true_iff in Hv.
  destruct Hv as [-> | ->]; simpl; [reflexivity|].
  now rewrite andb_false_r.
Qed.

End RoundTrip.

Section RoundTripTheorem.
Context {NMSetting : Type} `{NMSettingClass NMSetting}.

Notation ALL := NM_SETTING_HASH_FLAG_ALL.
Notation EXACT := NM_SETTING_COMPARE_FLAG_EXACT.

Lemma verify_depends_on_settings reg (c c' : NMConnection NMSetting) :
  settings c' = settings c ->
  nm_connection_verify reg c' = nm_connection_verify reg c.
Proof.
  intros Heq.
  unfold nm_connection_verify, nm_connection_get_setting_connection,
    nm_connection_get_setting_by_name, nm_connection_get_setting.
  now rewrite Heq.
Qed.

Lemma compare_same_settings (c c' : NMConnection NMSetting) :
  table_consistent c ->
  settings c' = settings c ->
  (forall s, In s (values (settings c)) ->
             nm_setting_compare s s EXACT = true) ->
  nm_connection_compare (Some c') (Some c) EXACT = true
  /\ nm_connection_compare (Some c) (Some c') EXACT = true.
Proof.
  intros Hc Heq Hrefl.
  assert (Hc' : table_consistent c').
  { unfold table_consistent. now rewrite Heq. }
  split; apply compare_some_some; rewrite Heq; (split; [|reflexivity]);
    apply Forall_forall; intros s Hs; exists s.
  - split; [now apply consistent_get_value|now apply Hrefl].
  - split; [|now apply Hrefl].
    apply consistent_get_value; [exact Hc'|now rewrite Heq].
Qed.

(** Claim C5, as the code has it.  A connection that passes
    verification, holds one setting per kind, and each of whose settings
    is serialized to a table (an empty one is NULL, and the setting is
    left out of the connection's table), is read back from its own table:
    [nm_connection_new_from_hash] succeeds on
    [nm_connection_to_hash c ALL], with the settings of [c], and the
    result compares equal to [c] under the exact flags.  It is assumed of
    the kinds in [c] that they are registered under their names, that
    their hash pairs are lossless, and that the connection setting writes
    its permissions as a list of strings. *)
Theorem hash_roundtrip (reg : Registry) (c : NMConnection NMSetting)
    (address : N) :
  table_consistent c ->
  nm_connection_verify reg c = TRUE ->
  (forall s, In s (values (settings c)) ->
     kind_registered reg s /\ lossless s /\ permissions_well_typed s) ->
  (forall s, In s (values (settings c)) ->
     nm_setting_to_hash s ALL <> None) ->
  exists hash c',
    nm_connection_to_hash c ALL = Some hash
    /\ nm_connection_new_from_hash reg address hash = inl c'
    /\ settings c' = settings c
    /\ nm_connection_compare (Some c') (Some c) EXACT = true
    /\ nm_connection_compare (Some c) (Some c') EXACT = true.
Proof.
  intros Hc Hver Hkinds Hsome.
  set (l := values (settings c)) in *.
  destruct (consistent_keyed_values Hc) as [Hkeyed Htypes].
  fold l in Hkeyed, Htypes.
  assert (Hnd_types : NoDup (map G_OBJECT_TYPE l)).
  { rewrite Htypes. exact (proj1 Hc). }
  assert (Hnd_names : NoDup (map nm_setting_get_name l)).
  { apply NoDup_map_inv
      with (f := nm_connection_lookup_setting_type reg).
    rewrite map_map.
    rewrite (map_ext_in _ G_OBJECT_TYPE); [exact Hnd_types|].
    intros s Hs. exact (proj1 (proj1 (Hkinds s Hs))). }
  set (hash := map (fun s => (nm_setting_get_name s, serialized s)) l).
  assert (Hto : nm_connection_to_hash c ALL = Some hash).
  { unfold nm_connection_to_hash. fold l.
    rewrite to_hash_fold; [|exact Hsome|exact Hnd_names|intros s _ []].
    simpl. fold hash.
    destruct l as [|x l'] eqn:El; [|reflexivity].
    exfalso. unfold nm_connection_verify,
      nm_connection_get_setting_connection, nm_connection_get_setting
      in Hver.
    unfold l, values in El. apply map_eq_nil in El. rewrite El in Hver.
    discriminate. }
  set (c' := {| self := address; settings := settings c; path := None |}).
  assert (Hloop :
    fst (fold_left (hash_to_connection_step reg) hash
           (set_settings (nm_connection_new address)
              (g_hash_table_remove_all
                 (settings (nm_connection_new address))), None)) = c').
  { unfold hash. rewrite from_hash_fold.
    - simpl. rewrite Hkeyed. reflexivity.
    - intros s Hs. destruct (Hkinds s Hs) as (Hr & Hl & _). now split.
    - exact Hnd_types.
    - intros s _ []. }
  exists hash, c'. split; [exact Hto|].
  assert (Hfrom : nm_connection_new_from_hash reg address hash = inl c').
  { unfold nm_connection_new_from_hash. unfold hash at 1.
    rewrite validate_permissions_entries
      by (intros s Hs; exact (proj2 (proj2 (Hkinds s Hs)))).
    unfold hash_to_connection. rewrite Hloop.
    rewrite (verify_depends_on_settings reg c c' eq_refl), Hver.
    reflexivity. }
  split; [exact Hfrom|]. split; [reflexivity|].
  apply compare_same_settings; [exact Hc|reflexivity|].
  intros s Hs. exact (proj2 (proj1 (proj2 (Hkinds s Hs)))).
Qed.

End RoundTripTheorem.

Lemma kinds_lossless (s : Kinds.Setting) : lossless s.
Proof.
  split; [|apply props_eqb_refl].
  unfold serialized. destruct s as [k p]. simpl.
  destruct p; reflexivity.
Qed.

Lemma hash_roundtrip_witness :
  let c := Kinds.connection_of [Kinds.s_con "802-3-ethernet"; Kinds.s_wired] in
  exists hash c',
    nm_connection_to_hash c NM_SETTING_HASH_FLAG_ALL = Some hash
    /\ nm_connection_new_from_hash Kinds.registry 2 hash = inl c'
    /\ settings c' = settings c
    /\ nm_connection_compare (Some c') (Some c)
         NM_SETTING_COMPARE_FLAG_EXACT = true
    /\ nm_connection_compare (Some c) (Some c')
         NM_SETTING_COMPARE_FLAG_EXACT = true.
Proof.
  intros c. apply (hash_roundtrip (reg := Kinds.registry) (c := c) 2).
  - split; simpl.
    + repeat constructor; simpl; intuition discriminate.
    + repeat constructor.
  - reflexivity.
  - intros s Hs. split; [|split; [apply kinds_lossless|]].
    + destruct Hs as [<-|[<-|[]]]; split; (reflexivity || discriminate).
    + destruct Hs as [<-|[<-|[]]]; intros Hname v Hv;
        vm_compute in Hv; discriminate.
  - intros s [<-|[<-|[]]]; discriminate.
Defined.

(** Claim C5 as stated fails.  The connection holds the connection
    setting, of type "802-3-ethernet", and a wired setting with no
    property set, and passes verification; the kinds' hash pairs are
    lossless.  The wired setting is serialized to NULL and left out of the
    connection's table, and reading the table back fails verification. *)
Lemma hash_roundtrip_loses_empty_setting :
  let c :=
    Kinds.connection_of [Kinds.s_con "802-3-ethernet"; Kinds.s_wired_default]
  in
  nm_connection_verify Kinds.registry c = TRUE
  /\ lossless (Kinds.s_con "802-3-ethernet")
  /\ lossless Kinds.s_wired_default
  /\ nm_connection_to_hash c NM_SETTING_HASH_FLAG_ALL
     = Some [("connection"%string, Kinds.props (Kinds.s_con "802-3-ethernet"))]
  /\ nm_connection_new_from_hash Kinds.registry 2
       [("connection"%string, Kinds.props (Kinds.s_con "802-3-ethernet"))]
     = inr (NM_CONNECTION_ERROR NM_CONNECTION_ERROR_CONNECTION_TYPE_INVALID
              "base setting GType not found").
Proof.
  intros c. split; [reflexivity|]. split; [apply kinds_lossless|].
  split; [apply kinds_lossless|]. split; reflexivity.
Qed.

(** ** Replacing the settings *)

Section ReplaceFacts.
Context {NMSetting : Type} `{NMSettingClass NMSetting}.

(** What is decided before the loop, and what the loop leaves: a wrong
    type of the permissions leaves the connection as it was; otherwise the
    settings held before play no part in the result, which is kept also
    when verification fails. *)
Lemma replace_settings_not_transactional (reg : Registry)
    (c : NMConnection NMSetting) (new : ConnectionHash) :
  (forall e, validate_permissions_type new = FALSE e ->
     nm_connection_replace_settings reg c new = (c, FALSE e)
     /\ e = NM_SETTING_ERROR_PROPERTY_TYPE_MISMATCH
              "Wrong permissions property type; should be a list of strings.")
  /\ (validate_permissions_type new = TRUE ->
      let c' := fst (nm_connection_replace_settings reg c new) in
      settings c'
      = settings (fst (hash_to_connection reg (nm_connection_new (self c))
                         new))
      /\ self c' = self c /\ path c' = path c
      /\ snd (nm_connection_replace_settings reg c new)
         = nm_connection_verify reg c').
Proof.
  split.
  - intros e He. unfold nm_connection_replace_settings. rewrite He.
    split; [reflexivity|].
    unfold validate_permissions_type in He.
    destruct (g_hash_table_lookup new NM_SETTING_CONNECTION_SETTING_NAME)
      as [s_con|]; [|discriminate].
    destruct (g_hash_table_lookup s_con NM_SETTING_CONNECTION_PERMISSIONS)
      as [v|]; [|discriminate].
    destruct (negb _ && negb _); [|discriminate]. now injection He as <-.
  - intros Hv. unfold nm_connection_replace_settings. rewrite Hv.
    unfold hash_to_connection. simpl.
    set (start := set_settings c (g_hash_table_remove_all (settings c))).
    set (start' := set_settings
                     (nm_connection_new (NMSetting := NMSetting) (self c))
                     (g_hash_table_remove_all
                        (settings
                           (nm_connection_new (NMSetting := NMSetting)
                              (self c))))).
    assert (Hgen : forall entries (c1 c2 : NMConnection NMSetting) st,
               settings c1 = settings c2 ->
               let r1 := fst (fold_left (hash_to_connection_step reg)
                                entries (c1, st)) in
               let r2 := fst (fold_left (hash_to_connection_step reg)
                                entries (c2, st)) in
               settings r1 = settings r2
               /\ self r1 = self c1 /\ path r1 = path c1).
    { induction entries as [|[name h] rest IH]; intros c1 c2 st Heq;
        simpl; [auto|].
      destruct (if nm_connection_lookup_setting_type reg name =? 0
                then st else nm_setting_new_from_hash _ h) as [s|].
      - destruct (IH (nm_connection_add_setting c1 s)
                    (nm_connection_add_setting c2 s) (Some s)) as (A & B & C).
        + simpl. now rewrite Heq.
        + auto.
      - now apply IH. }
    destruct (Hgen new start start' None eq_refl) as (A & B & C).
    repeat split; assumption.
Qed.


End ReplaceFacts.

Section OwnershipFacts.
Context {NMSetting : Type} `{NMSettingClass NMSetting}.

Lemma erase_insert (t : GHashTable GType (Ownership.GObject NMSetting))
    k o :
  map (fun kv => (fst kv, Ownership.state (snd kv)))
    (g_hash_table_insert t k o)
  = g_hash_table_insert
      (map (fun kv => (fst kv, Ownership.state (snd kv))) t) k
      (Ownership.state o).
Proof.
  induction t as [|[k' o'] t IH]; simpl; [reflexivity|].
  destruct (k' =? k); simpl; [reflexivity|now rewrite IH].
Qed.

(** Without the addresses, the loop on objects is the loop of
    [hash_to_connection]. *)
Lemma ownership_step_erased (reg : Registry) entries :
  forall (st : Ownership.Settings NMSetting) o (c : NMConnection NMSetting),
  Ownership.erase st = settings c ->
  Ownership.erase
    (fst (fold_left (Ownership.hash_to_connection_step reg) entries (st, o)))
  = settings
      (fst (fold_left (hash_to_connection_step reg) entries
              (c, option_map Ownership.state o))).
Proof.
  induction entries as [|[name h] rest IH]; intros st o c Heq; simpl;
    [exact Heq|].
  destruct (nm_connection_lookup_setting_type reg name =? 0).
  - destruct o as [o|]; simpl.
    + apply (IH _ (Some o)). unfold Ownership.erase. simpl.
      rewrite erase_insert. now rewrite <- Heq.
    + now apply (IH _ None).
  - destruct (nm_setting_new_from_hash
                (nm_connection_lookup_setting_type reg name) h) as [s|];
      simpl.
    + apply (IH _ (Some {| Ownership.address := Ownership.allocated st;
                             Ownership.state := s |})).
      unfold Ownership.erase. simpl. rewrite erase_insert.
      now rewrite <- Heq.
    + now apply (IH _ None).
Qed.

End OwnershipFacts.

(** Claim C2 at an input with an unknown setting name after a known one.
    The table yields "connection", "802-3-ethernet" and then "bogus",
    which no kind is registered under.  For "bogus" no setting is made,
    but [setting] still holds the wired setting of the turn before, and it
    is added again: two settings were made and three were added.  The
    insert on the key that is present destroys the value it replaces, the
    same object, and drops its only reference: the connection is returned
    as valid and holds a finalized setting. *)
Lemma replace_settings_readds_stale_setting :
  let new : ConnectionHash :=
    [("connection"%string, Kinds.props (Kinds.s_con "802-3-ethernet"));
     ("802-3-ethernet"%string, Kinds.props Kinds.s_wired);
     ("bogus"%string, [])] in
  let st :=
    Ownership.hash_to_connection Kinds.registry
      {| Ownership.table := []; Ownership.allocated := 0;
         Ownership.unreffed := [] |} new in
  nm_connection_lookup_setting_type Kinds.registry "bogus" = G_TYPE_INVALID
  /\ snd (nm_connection_replace_settings Kinds.registry (nm_connection_new 1)
            new) = TRUE
  /\ Ownership.erase st
     = settings (fst (nm_connection_replace_settings Kinds.registry
                        (nm_connection_new 1) new))
  /\ Ownership.allocated st = 2%nat
  /\ map (fun kv => Ownership.address (snd kv)) (Ownership.table st)
     = [0; 1]%nat
  /\ Ownership.unreffed st = [1]%nat
  /\ Ownership.dangling st = true.
Proof. repeat split. Qed.

(** The same table without the unknown name: nothing is unreffed. *)
Lemma replace_settings_known_names :
  let new : ConnectionHash :=
    [("connection"%string, Kinds.props (Kinds.s_con "802-3-ethernet"));
     ("802-3-ethernet"%string, Kinds.props Kinds.s_wired)] in
  let st :=
    Ownership.hash_to_connection Kinds.registry
      {| Ownership.table := []; Ownership.allocated := 0;
         Ownership.unreffed := [] |} new in
  Ownership.unreffed st = [] /\ Ownership.dangling st = false.
Proof. split; reflexivity. Qed.

Section OwnershipSafety.
Context {NMSetting : Type} `{NMSettingClass NMSetting}.

Notation GObject := (Ownership.GObject NMSetting).
Notation addrs := (fun t : GHashTable GType GObject =>
                     map Ownership.address (values t)).

Lemma insert_addresses_In (t : GHashTable GType GObject) k o a :
  In a (addrs (g_hash_table_insert t k o)) ->
  a = Ownership.address o \/ In a (addrs t).
Proof.
  induction t as [|[k' o'] t IH]; simpl.
  - intros [<-|[]]. now left.
  - destruct (k' =? k); simpl.
    + intros [<-|Hin]; auto.
    + intros [<-|Hin]; auto. destruct (IH Hin); auto.
Qed.

Lemma insert_addresses_NoDup (t : GHashTable GType GObject) k o :
  NoDup (addrs t) -> ~ In (Ownership.address o) (addrs t) ->
  NoDup (addrs (g_hash_table_insert t k o)).
Proof.
  induction t as [|[k' o'] t IH]; simpl; intros Hnd Hfresh.
  - repeat constructor. intros [].
  - inversion Hnd as [|? ? Hx Hnd']; subst.
    destruct (k' =? k); simpl.
    + constructor; [|exact Hnd']. intros Hin. apply Hfresh. now right.
    + constructor.
      * intros Hin. apply insert_addresses_In in Hin.
        destruct Hin as [Heq|Hin]; [|contradiction].
        apply Hfresh. left. now symmetry.
      * apply IH; [exact Hnd'|]. intros Hin. apply Hfresh. now right.
Qed.

Lemma insert_replaced_gone (t : GHashTable GType GObject) k o old :
  NoDup (addrs t) -> ~ In (Ownership.address o) (addrs t) ->
  g_hash_table_lookup t k = Some old ->
  ~ In (Ownership.address old) (addrs (g_hash_table_insert t k o)).
Proof.
  induction t as [|[k' o'] t IH]; simpl; intros Hnd Hfresh Hl;
    [discriminate|].
  inversion Hnd as [|? ? Hx Hnd']; subst.
  destruct (k' =? k); simpl.
  - injection Hl as ->. intros [Heq|Hin]; [|contradiction].
    apply Hfresh. left. now symmetry.
  - intros [Heq|Hin].
    + apply Hx. rewrite Heq.
      apply lookup_In in Hl. apply in_map.
      unfold values. change old with (snd (k, old)). now apply in_map.
    + revert Hin. apply IH; [exact Hnd'| |exact Hl].
      intros Hin. apply Hfresh. now right.
Qed.

Lemma add_fresh_well_owned (st : Ownership.Settings NMSetting) (s : NMSetting) :
  Ownership.well_owned st ->
  Ownership.well_owned
    (Ownership.nm_connection_add_setting
       (fst (Ownership.g_object_new st s))
       (snd (Ownership.g_object_new st s))).
Proof.
  intros (Hnd & Hlt & Hun).
  assert (Hfresh : ~ In (Ownership.allocated st) (Ownership.addresses st)).
  { intros Hin. apply Hlt in Hin. lia. }
  unfold Ownership.well_owned, Ownership.addresses,
    Ownership.nm_connection_add_setting. simpl. repeat split.
  - now apply insert_addresses_NoDup.
  - intros a Hin. apply insert_addresses_In in Hin. simpl in Hin.
    destruct Hin as [->|Hin]; [lia|]. apply Hlt in Hin. lia.
  - apply in_app_or in H0. destruct H0 as [Hin|Hin].
    + apply Hun in Hin. lia.
    + destruct (g_hash_table_lookup (Ownership.table st) (G_OBJECT_TYPE s))
        as [old|] eqn:E; [|destruct Hin].
      destruct Hin as [<-|[]]. apply lookup_In in E.
      assert (Hold : In (Ownership.address old) (Ownership.addresses st)).
      { unfold Ownership.addresses. apply in_map. unfold values.
        change old with (snd (G_OBJECT_TYPE s, old)). now apply in_map. }
      apply Hlt in Hold. lia.
  - apply in_app_or in H0. destruct H0 as [Hin|Hin].
    + intros Hin'. apply insert_addresses_In in Hin'. simpl in Hin'.
      destruct Hin' as [->|Hin']; [apply Hun in Hin; lia|].
      apply Hun in Hin. now apply (proj2 Hin).
    + destruct (g_hash_table_lookup (Ownership.table st) (G_OBJECT_TYPE s))
        as [old|] eqn:E; [|destruct Hin].
      destruct Hin as [<-|[]].
      now apply insert_replaced_gone.
Qed.

Lemma well_owned_not_dangling (st : Ownership.Settings NMSetting) :
  Ownership.well_owned st -> Ownership.dangling st = false.
Proof.
  intros (_ & _ & Hun). unfold Ownership.dangling.
  destruct (existsb _ (values (Ownership.table st))) eqn:E; [|reflexivity].
  exfalso. apply existsb_exists in E. destruct E as (o & Hin & Hex).
  apply existsb_exists in Hex. destruct Hex as (a & Ha & Heq).
  apply Nat.eqb_eq in Heq. subst a.
  apply (proj2 (Hun _ Ha)). unfold Ownership.addresses. now apply in_map.
Qed.

(** When every name of the table is a registered one, each setting added
    is the one just made, and the table never holds an object that was
    unreffed. *)
Lemma registered_names_no_dangling (reg : Registry)
    (st : Ownership.Settings NMSetting) (new : ConnectionHash) :
  Ownership.well_owned st ->
  (forall name h, In (name, h) new ->
     nm_connection_lookup_setting_type reg name <> G_TYPE_INVALID) ->
  Ownership.dangling (Ownership.hash_to_connection reg st new) = false.
Proof.
  intros Hst Hnames. apply well_owned_not_dangling.
  unfold Ownership.hash_to_connection.
  assert (Hstart : Ownership.well_owned (Ownership.remove_all st)).
  { destruct Hst as (Hnd & Hlt & Hun).
    unfold Ownership.well_owned, Ownership.addresses, Ownership.remove_all.
    simpl. repeat split.
    - constructor.
    - intros a [].
    - apply in_app_or in H0. destruct H0 as [Hin|Hin];
        [now apply Hun|now apply Hlt].
    - intros []. }
  revert Hstart. generalize (Ownership.remove_all st) as st0.
  generalize (@None GObject) as o.
  induction new as [|[name h] rest IH]; intros o st0 Hst0; simpl;
    [exact Hst0|].
  assert (E : (nm_connection_lookup_setting_type reg name =? 0) = false).
  { apply N.eqb_neq. apply (Hnames name h). now left. }
  rewrite E.
  destruct (nm_setting_new_from_hash
              (nm_connection_lookup_setting_type reg name) h) as [s|].
  - apply IH.
    + intros n' h' Hin. apply (Hnames n' h'). now right.
    + exact (add_fresh_well_owned s Hst0).
  - apply IH; [|exact Hst0].
    intros n' h' Hin. apply (Hnames n' h'). now right.
Qed.

End OwnershipSafety.

(** ** The container *)

Section ContainerFacts.
Context {NMSetting : Type} `{NMSettingClass NMSetting}.

Lemma lookup_remove_same {K V : Type} `{KeyEq K} (h : GHashTable K V) k :
  g_hash_table_lookup (g_hash_table_remove h k) k = None.
Proof.
  unfold g_hash_table_remove.
  induction h as [|[k' v'] t IH]; simpl; [reflexivity|].
  destruct (key_eqb k' k) eqn:E; simpl; [exact IH|].
  now rewrite E.
Qed.

Lemma lookup_remove_other {K V : Type} `{KeyEq K} (h : GHashTable K V)
    k k' :
  k <> k' ->
  g_hash_table_lookup (g_hash_table_remove h k) k'
  = g_hash_table_lookup h k'.
Proof.
  intros Hne. unfold g_hash_table_remove.
  induction h as [|[k0 v0] t IH]; simpl; [reflexivity|].
  destruct (key_eqb k0 k) eqn:E; simpl.
  - apply key_eqb_spec in E. subst k0. now rewrite key_eqb_neq.
  - now rewrite IH.
Qed.

Lemma remove_absent {K V : Type} `{KeyEq K} (h : GHashTable K V) k :
  g_hash_table_lookup h k = None -> g_hash_table_remove h k = h.
Proof.
  unfold g_hash_table_remove.
  induction h as [|[k0 v0] t IH]; simpl; [reflexivity|].
  destruct (key_eqb k0 k) eqn:E; [discriminate|]. simpl.
  intros Hl. now rewrite IH.
Qed.

Lemma remove_In {K V : Type} `{KeyEq K} (h : GHashTable K V) k kv :
  In kv (g_hash_table_remove h k) -> In kv h /\ fst kv <> k.
Proof.
  unfold g_hash_table_remove. rewrite filter_In.
  intros [Hin Hk]. split; [exact Hin|].
  intros Heq. apply key_eqb_spec in Heq. rewrite Heq in Hk. discriminate.
Qed.

Lemma set_settings_same (c : NMConnection NMSetting) :
  set_settings c (settings c) = c.
Proof. now destruct c. Qed.

(** X1.  A setting that was added is the one found under its kind, in
    place of a setting of that kind held before; what is found under the
    other kinds is as before. *)
Theorem add_setting_get (c : NMConnection NMSetting) (s : NMSetting)
    (t : GType) :
  nm_connection_get_setting (nm_connection_add_setting c s) t
  = if t =? G_OBJECT_TYPE s then Some s
    else nm_connection_get_setting c t.
Proof.
  unfold nm_connection_get_setting, nm_connection_add_setting. simpl.
  destruct (t =? G_OBJECT_TYPE s) eqn:E.
  - apply N.eqb_eq in E. subst t. apply lookup_insert_same.
  - apply N.eqb_neq in E. apply lookup_insert_other. congruence.
Qed.

Lemma add_setting_consistent_table (c : NMConnection NMSetting) s :
  table_consistent c -> table_consistent (nm_connection_add_setting c s).
Proof.
  intros [Hnd Hk]. unfold table_consistent, nm_connection_add_setting.
  simpl. split; [now apply NoDup_keys_insert|].
  apply Forall_forall. intros kv Hin. apply insert_In in Hin.
  destruct Hin as [->|Hin]; [reflexivity|].
  rewrite Forall_forall in Hk. now apply Hk.
Qed.

(** X2.  Adding a setting keeps the table at one setting per kind, each
    under its own kind; the table grows by one when the kind was absent
    and keeps its size when a setting of the kind is replaced. *)
Theorem add_setting_invariant (c : NMConnection NMSetting) (s : NMSetting) :
  table_consistent c ->
  table_consistent (nm_connection_add_setting c s)
  /\ g_hash_table_size (settings (nm_connection_add_setting c s))
     = match nm_connection_get_setting c (G_OBJECT_TYPE s) with
       | Some _ => g_hash_table_size (settings c)
       | None => S (g_hash_table_size (settings c))
       end.
Proof.
  intros Hc. split; [now apply add_setting_consistent_table|].
  unfold nm_connection_get_setting, nm_connection_add_setting. simpl.
  destruct (g_hash_table_lookup (settings c) (G_OBJECT_TYPE s)) eqn:E.
  - rewrite <- !keys_length. rewrite keys_insert_present; [reflexivity|].
    unfold GType in *. congruence.
  - rewrite insert_absent by exact E. unfold g_hash_table_size.
    rewrite length_app. simpl. lia.
Qed.

(** X3.  After a kind was removed no setting is found under it, and what
    is found under the other kinds is as before; removing a kind that is
    absent leaves the connection as it was; the table stays at one
    setting per kind. *)
Theorem remove_setting_spec (c : NMConnection NMSetting) (t : GType) :
  nm_connection_get_setting (nm_connection_remove_setting c t) t = None
  /\ (forall t', t' <> t ->
        nm_connection_get_setting (nm_connection_remove_setting c t) t'
        = nm_connection_get_setting c t')
  /\ (nm_connection_get_setting c t = None ->
      nm_connection_remove_setting c t = c)
  /\ (table_consistent c ->
      table_consistent (nm_connection_remove_setting c t)).
Proof.
  unfold nm_connection_get_setting, nm_connection_remove_setting.
  cbn [settings set_settings]. repeat split.
  - apply lookup_remove_same.
  - intros t' Hne. apply lookup_remove_other. congruence.
  - intros Hnone. pose proof (remove_absent _ _ Hnone) as E.
    unfold GType in *. rewrite E. apply set_settings_same.
  - destruct H0 as [Hnd _]. cbn [settings set_settings].
    unfold keys, g_hash_table_remove.
    clear -Hnd. unfold keys in Hnd.
    induction (settings c) as [|[k v] l IH]; simpl; [constructor|].
    inversion Hnd as [|? ? Hx Hnd']; subst.
    destruct (negb (k =? t)); simpl; [|now apply IH].
    constructor; [|now apply IH].
    intros Hin. apply Hx. apply in_map_iff in Hin.
    destruct Hin as (kv & Hk & Hin). apply filter_In in Hin.
    rewrite <- Hk. apply in_map. exact (proj1 Hin).
  - destruct H0 as [_ Hk]. cbn [settings set_settings].
    apply Forall_forall. intros kv Hin.
    apply remove_In in Hin. rewrite Forall_forall in Hk.
    now apply Hk.
Qed.

(** X4.  Adding a setting of a kind that the connection does not hold and
    removing that kind again gives back the connection. *)
Theorem remove_add_setting (c : NMConnection NMSetting) (s : NMSetting) :
  nm_connection_get_setting c (G_OBJECT_TYPE s) = None ->
  nm_connection_remove_setting (nm_connection_add_setting c s)
    (G_OBJECT_TYPE s) = c.
Proof.
  unfold nm_connection_get_setting, nm_connection_remove_setting,
    nm_connection_add_setting. simpl. intros Hnone.
  rewrite insert_absent by exact Hnone.
  pose proof (remove_absent _ _ Hnone) as E.
  unfold g_hash_table_remove in *. rewrite filter_app, E. simpl.
  rewrite N.eqb_refl. simpl. rewrite app_nil_r.
  now destruct c.
Qed.

End ContainerFacts.

Lemma add_setting_invariant_witness :
  let c := Kinds.connection_of [Kinds.s_con "802-3-ethernet"] in
  table_consistent (nm_connection_add_setting c Kinds.s_wired)
  /\ g_hash_table_size (settings (nm_connection_add_setting c Kinds.s_wired))
     = 2%nat.
Proof.
  intros c.
  assert (Hc : table_consistent c).
  { split; simpl.
    - repeat constructor; simpl; intuition discriminate.
    - repeat constructor. }
  exact (add_setting_invariant Kinds.s_wired Hc).
Defined.

Lemma remove_add_setting_witness :
  let c := Kinds.connection_of [Kinds.s_con "802-3-ethernet"] in
  nm_connection_remove_setting (nm_connection_add_setting c Kinds.s_wired)
    Kinds.T_WIRED = c.
Proof.
  intros c. exact (remove_add_setting c Kinds.s_wired eq_refl).
Defined.

(** ** More on the registry *)

Lemma register_returned_valid reg name ty prio q reg' :
  registry_after (_nm_register_setting reg name ty prio q) = Some reg' ->
  reg' = reg
  \/ (reg' = g_hash_table_insert reg name
               {| type := ty; priority := prio; error_quark := q |}
      /\ g_hash_table_lookup reg name = None
      /\ prio <= 4 /\ ty <> G_TYPE_INVALID /\ ty <> G_TYPE_NONE /\ q <> 0
      /\ (prio = 0 -> name = NM_SETTING_CONNECTION_SETTING_NAME)).
Proof.
  unfold _nm_register_setting.
  destruct (ty =? G_TYPE_INVALID) eqn:E1; [simpl; intros [= <-]; now left|].
  destruct (ty =? G_TYPE_NONE) eqn:E2; [simpl; intros [= <-]; now left|].
  destruct (q =? 0) eqn:E3; [simpl; intros [= <-]; now left|].
  destruct (prio <=? 4) eqn:E4; simpl; [|intros [= <-]; now left].
  destruct (g_hash_table_lookup reg name) eqn:E5;
    [simpl; intros [= <-]; now left|].
  apply N.eqb_neq in E1, E2, E3. apply N.leb_le in E4.
  destruct (prio =? 0) eqn:E6; simpl.
  - destruct (String.eqb name NM_SETTING_CONNECTION_SETTING_NAME) eqn:E7;
      simpl; [|discriminate].
    apply String.eqb_eq in E7. intros [= <-]. right. repeat split; auto.
  - apply N.eqb_neq in E6. intros [= <-]. right. repeat split; auto.
    intros Hp. contradiction.
Qed.

(** X5.  In a registry made by registrations the names are distinct,
    and every entry has a priority of at most 4, a type that is neither
    [G_TYPE_INVALID] nor [G_TYPE_NONE] and an error quark other than 0;
    priority 0 is found under the name "connection" only. *)
Theorem registry_invariant (reg : Registry) :
  reachable reg ->
  NoDup (keys reg)
  /\ forall name info,
       g_hash_table_lookup reg name = Some info ->
       priority info <= 4
       /\ type info <> G_TYPE_INVALID /\ type info <> G_TYPE_NONE
       /\ error_quark info <> 0
       /\ (priority info = 0 -> name = NM_SETTING_CONNECTION_SETTING_NAME).
Proof.
  induction 1 as [|reg name ty prio q reg' Hr [IHn IHe] Hafter].
  - split; [constructor|]. intros name info. discriminate.
  - destruct (register_returned_valid _ _ _ _ _ Hafter)
      as [->|(-> & Hnone & Hp & Ht1 & Ht2 & Hq & Hname)]; [now split|].
    split; [now apply NoDup_keys_insert|].
    intros n info Hl. destruct (string_dec name n) as [<-|Hn].
    + rewrite lookup_insert_same in Hl. injection Hl as <-. simpl. auto.
    + rewrite lookup_insert_other in Hl by exact Hn. now apply IHe.
Qed.

Lemma registry_invariant_witness :
  let info :=
    {| type := Kinds.T_PPPOE; priority := 3; error_quark := 1006 |} in
  priority info <= 4
  /\ type info <> G_TYPE_INVALID /\ type info <> G_TYPE_NONE
  /\ error_quark info <> 0
  /\ (priority info = 0 ->
      "pppoe"%string = NM_SETTING_CONNECTION_SETTING_NAME).
Proof.
  intros info.
  exact (proj2 (registry_invariant registry_reachable) "pppoe"%string info
           eq_refl).
Defined.

(** X6.  A registration that returns keeps every entry of the registry
    as it is: the first registration of a name stands.  With arguments
    that pass the checks and a name not yet registered, the call adds
    one entry, under which the name is then looked up. *)
Theorem register_setting_adds (reg : Registry) (name : string)
    (ty : GType) (prio : N) (q : GQuark) :
  (forall reg' n info,
     registry_after (_nm_register_setting reg name ty prio q) = Some reg' ->
     g_hash_table_lookup reg n = Some info ->
     g_hash_table_lookup reg' n = Some info)
  /\ (ty <> G_TYPE_INVALID -> ty <> G_TYPE_NONE -> q <> 0 -> prio <= 4 ->
      (prio = 0 -> name = NM_SETTING_CONNECTION_SETTING_NAME) ->
      g_hash_table_lookup reg name = None ->
      exists reg',
        _nm_register_setting reg name ty prio q = Registered reg'
        /\ g_hash_table_lookup reg' name
           = Some {| type := ty; priority := prio; error_quark := q |}
        /\ nm_connection_lookup_setting_type reg' name = ty
        /\ g_hash_table_size reg' = S (g_hash_table_size reg)).
Proof.
  split.
  - intros reg' n info Hafter Hl.
    destruct (register_returned_valid _ _ _ _ _ Hafter)
      as [->|(-> & Hnone & _)]; [exact Hl|].
    rewrite lookup_insert_other; [exact Hl|]. intros <-. congruence.
  - intros H1 H2 H3 H4 H5 Hnone.
    exists (g_hash_table_insert reg name
              {| type := ty; priority := prio; error_quark := q |}).
    split.
    + unfold _nm_register_setting.
      apply N.eqb_neq in H1, H2, H3. apply N.leb_le in H4.
      rewrite H1, H2, H3, H4, Hnone. simpl.
      destruct (prio =? 0) eqn:E; [|reflexivity].
      apply N.eqb_eq in E. rewrite (H5 E). reflexivity.
    + split; [apply lookup_insert_same|]. split.
      * unfold nm_connection_lookup_setting_type.
        now rewrite lookup_insert_same.
      * rewrite insert_absent by exact Hnone. unfold g_hash_table_size.
        rewrite length_app. simpl. lia.
Qed.

Lemma register_setting_adds_witness :
  exists reg',
    _nm_register_setting Kinds.registry "bond" 104 1 1007 = Registered reg'
    /\ g_hash_table_lookup reg' "bond"
       = Some {| type := 104; priority := 1; error_quark := 1007 |}
    /\ nm_connection_lookup_setting_type reg' "bond" = 104
    /\ g_hash_table_size reg' = S (g_hash_table_size Kinds.registry).
Proof.
  apply (proj2 (register_setting_adds Kinds.registry "bond" 104 1 1007));
    try discriminate; reflexivity.
Defined.

Section LookupFacts.
Context {NMSetting : Type} `{NMSettingClass NMSetting}.

(** X7.  In a registry made by registrations, looking a name up gives
    [G_TYPE_INVALID] exactly when the name is not registered; a setting
    is found by name exactly when the name is registered and the
    connection holds a setting of the registered kind. *)
Theorem lookup_by_name_miss (reg : Registry) (name : string) :
  reachable reg ->
  (nm_connection_lookup_setting_type reg name = G_TYPE_INVALID
   <-> g_hash_table_lookup reg name = None)
  /\ forall c : NMConnection NMSetting,
       nm_connection_get_setting_by_name reg c name
       = match g_hash_table_lookup reg name with
         | Some info => nm_connection_get_setting c (type info)
         | None => None
         end.
Proof.
  intros Hr. destruct (reachable_entries Hr) as [Hok _].
  unfold nm_connection_get_setting_by_name,
    nm_connection_lookup_setting_type.
  destruct (g_hash_table_lookup reg name) as [info|] eqn:E.
  - rewrite Forall_forall in Hok.
    destruct (Hok _ (lookup_In _ _ E)) as (_ & Ht & _). simpl in Ht.
    split.
    + split; [intros Hz; contradiction|discriminate].
    + intros c. apply N.eqb_neq in Ht. unfold G_TYPE_INVALID in Ht.
      now rewrite Ht.
  - split; [tauto|]. intros c. reflexivity.
Qed.

End LookupFacts.

Lemma lookup_by_name_miss_witness :
  nm_connection_lookup_setting_type Kinds.registry "bogus" = G_TYPE_INVALID
  <-> g_hash_table_lookup Kinds.registry "bogus" = None.
Proof.
  exact (proj1 (lookup_by_name_miss (NMSetting := Kinds.Setting) "bogus"
                  registry_reachable)).
Defined.

Lemma lookup_by_quark_cases (reg : Registry) (q : GQuark) :
  (nm_connection_lookup_setting_type_by_quark reg q = G_TYPE_INVALID
   /\ forall name info, In (name, info) reg -> error_quark info <> q)
  \/ (exists name info,
        In (name, info) reg /\ error_quark info = q
        /\ nm_connection_lookup_setting_type_by_quark reg q = type info).
Proof.
  induction reg as [|[n i] rest IH]; simpl.
  - left. split; [reflexivity|intros ? ? []].
  - destruct (error_quark i =? q) eqn:E.
    + apply N.eqb_eq in E. right. exists n, i. auto.
    + apply N.eqb_neq in E.
      destruct IH as [[Hs Hall]|(n' & i' & Hin & Hq & Hs)].
      * left. split; [exact Hs|].
        intros name info [[= <- <-]|Hin]; [exact E|eauto].
      * right. exists n', i'. auto.
Qed.

(** X8.  Looking a type up by error quark gives the type of an entry
    registered with that quark, when there is one; in a registry made by
    registrations it gives [G_TYPE_INVALID] exactly when no entry has the
    quark. *)
Theorem lookup_by_quark_spec (reg : Registry) (q : GQuark) :
  reachable reg ->
  (nm_connection_lookup_setting_type_by_quark reg q = G_TYPE_INVALID
   <-> forall name info, In (name, info) reg -> error_quark info <> q)
  /\ (nm_connection_lookup_setting_type_by_quark reg q <> G_TYPE_INVALID ->
      exists name info,
        g_hash_table_lookup reg name = Some info
        /\ error_quark info = q
        /\ type info
           = nm_connection_lookup_setting_type_by_quark reg q).
Proof.
  intros Hr. destruct (reachable_entries Hr) as [Hok Hnd].
  destruct (lookup_by_quark_cases reg q)
    as [[Hs Hall]|(n & i & Hin & Hq & Hs)].
  - split; [tauto|]. intros Hne. contradiction.
  - pose proof (In_lookup _ _ _ Hnd Hin) as Hl.
    rewrite Forall_forall in Hok.
    destruct (Hok _ Hin) as (_ & Ht & _). simpl in Ht. split.
    + split.
      * intros Hz. rewrite Hs in Hz. contradiction.
      * intros Hall. exfalso. exact (Hall n i Hin Hq).
    + intros _. exists n, i. auto.
Qed.

Lemma lookup_by_quark_spec_witness :
  exists name info,
    g_hash_table_lookup Kinds.registry name = Some info
    /\ error_quark info = 1005
    /\ type info
       = nm_connection_lookup_setting_type_by_quark Kinds.registry 1005.
Proof.
  apply (proj2 (lookup_by_quark_spec 1005 registry_reachable)).
  discriminate.
Defined.

(** ** More on verification and deserialization *)

Section VerifyMore.
Context {NMSetting : Type} `{NMSettingClass NMSetting}.

(** X9.  A failed verification reports one of five things, in this
    order of precedence: no connection setting; the error of the first
    setting (in the order of the table) that does not verify; no type in
    the connection setting; no setting of the connection under the type's
    name; a setting under that name that is not a base type. *)
Theorem verify_failure_cases (reg : Registry) (c : NMConnection NMSetting)
    (e : GError) :
  nm_connection_verify reg c = FALSE e ->
  (nm_connection_get_setting c NM_TYPE_SETTING_CONNECTION = None
   /\ e = NM_CONNECTION_ERROR
            NM_CONNECTION_ERROR_CONNECTION_SETTING_NOT_FOUND
            "connection setting not found")
  \/ exists s_con,
       nm_connection_get_setting c NM_TYPE_SETTING_CONNECTION = Some s_con
       /\ ((exists pre s post,
              values (settings c) = (pre ++ s :: post)%list
              /\ Forall (fun s' => nm_setting_verify s' (values (settings c))
                                   = TRUE) pre
              /\ nm_setting_verify s (values (settings c)) = FALSE e)
           \/ (Forall (fun s' => nm_setting_verify s' (values (settings c))
                                 = TRUE) (values (settings c))
               /\ ((nm_setting_connection_get_connection_type s_con = None
                    /\ e = NM_CONNECTION_ERROR
                             NM_CONNECTION_ERROR_CONNECTION_TYPE_INVALID
                             "connection type missing")
                   \/ exists ctype,
                        nm_setting_connection_get_connection_type s_con
                        = Some ctype
                        /\ ((nm_connection_get_setting_by_name reg c ctype
                             = None
                             /\ e = NM_CONNECTION_ERROR
                                  NM_CONNECTION_ERROR_CONNECTION_TYPE_INVALID
                                  "base setting GType not found")
                            \/ exists base,
                                 nm_connection_get_setting_by_name reg c
                                   ctype = Some base
                                 /\ _is_setting_base_type reg base = false
                                 /\ e = NM_CONNECTION_ERROR
                                  NM_CONNECTION_ERROR_CONNECTION_TYPE_INVALID
                                  ("connection type '" ++ ctype
                                   ++ "' is not a base type")%string)))).
Proof.
  unfold nm_connection_verify, nm_connection_get_setting_connection.
  destruct (nm_connection_get_setting c NM_TYPE_SETTING_CONNECTION)
    as [s_con|]; [|intros [= <-]; left; auto].
  intros Hv. right. exists s_con. split; [reflexivity|].
  destruct (verify_settings (values (settings c)) (values (settings c)))
    as [|e'] eqn:Ever.
  - right. apply verify_settings_TRUE in Ever. split; [exact Ever|].
    destruct (nm_setting_connection_get_connection_type s_con)
      as [ctype|]; [|injection Hv as <-; left; auto].
    right. exists ctype. split; [reflexivity|].
    destruct (nm_connection_get_setting_by_name reg c ctype) as [base|];
      [|injection Hv as <-; left; auto].
    right. exists base. split; [reflexivity|].
    destruct (_is_setting_base_type reg base); [discriminate|].
    injection Hv as <-. auto.
  - injection Hv as <-. left. now apply verify_settings_FALSE.
Qed.

(** X10.  The check of the permissions passes exactly when the table
    has no "connection" entry, or that entry has no "permissions", or the
    value holds a string array or a list of strings; its only error is
    PROPERTY_TYPE_MISMATCH. *)
Theorem validate_permissions_type_spec (hash : ConnectionHash) :
  (validate_permissions_type hash = TRUE <->
   forall s_con v,
     g_hash_table_lookup hash NM_SETTING_CONNECTION_SETTING_NAME
     = Some s_con ->
     g_hash_table_lookup s_con NM_SETTING_CONNECTION_PERMISSIONS = Some v ->
     G_VALUE_HOLDS v G_TYPE_STRV = true
     \/ G_VALUE_HOLDS v DBUS_TYPE_G_LIST_OF_STRING = true)
  /\ forall e,
       validate_permissions_type hash = FALSE e ->
       e = NM_SETTING_ERROR_PROPERTY_TYPE_MISMATCH
             "Wrong permissions property type; should be a list of strings.".
Proof.
  unfold validate_permissions_type.
  destruct (g_hash_table_lookup hash NM_SETTING_CONNECTION_SETTING_NAME)
    as [s_con|].
  2:{ split; [split; [intros _ ? ? Hd; discriminate Hd|reflexivity]
             |intros e Hd; discriminate Hd]. }
  destruct (g_hash_table_lookup s_con NM_SETTING_CONNECTION_PERMISSIONS)
    as [v|] eqn:Ep.
  2:{ split; [split; [intros _ ? ? [= <-] Hd; congruence|reflexivity]
             |intros e Hd; discriminate Hd]. }
  assert (Hv : forall (P : GValue -> Prop),
             P v <->
             (forall s_con0 v0,
                Some s_con = Some s_con0 ->
                g_hash_table_lookup s_con0 NM_SETTING_CONNECTION_PERMISSIONS
                = Some v0 -> P v0)).
  { intros P. split.
    - intros HP ? ? [= <-] Hl. rewrite Ep in Hl. now injection Hl as <-.
    - intros Hall. now apply (Hall s_con v). }
  rewrite <- (Hv (fun v0 => G_VALUE_HOLDS v0 G_TYPE_STRV = true
                            \/ G_VALUE_HOLDS v0 DBUS_TYPE_G_LIST_OF_STRING
                               = true)).
  destruct (G_VALUE_HOLDS v G_TYPE_STRV) eqn:E1;
    destruct (G_VALUE_HOLDS v DBUS_TYPE_G_LIST_OF_STRING) eqn:E2; simpl.
  - split; [split; auto|intros e Hd; discriminate Hd].
  - split; [split; auto|intros e Hd; discriminate Hd].
  - split; [split; auto|intros e Hd; discriminate Hd].
  - split.
    + split; [intros Hd; discriminate Hd|]. intros [Hd|Hd]; discriminate Hd.
    + now intros e [= <-].
Qed.

Lemma fold_add_consistent (l : list NMSetting) :
  forall c : NMConnection NMSetting,
  table_consistent c ->
  table_consistent (fold_left nm_connection_add_setting l c)
  /\ self (fold_left nm_connection_add_setting l c) = self c
  /\ path (fold_left nm_connection_add_setting l c) = path c.
Proof.
  induction l as [|s l IH]; intros c Hc; simpl; [auto|].
  destruct (IH (nm_connection_add_setting c s)
              (add_setting_consistent_table s Hc)) as (A & B & C).
  auto.
Qed.




End VerifyMore.

Lemma verify_failure_cases_witness :
  let c := Kinds.connection_of [Kinds.s_con "ppp";
                                {| Kinds.kind := Kinds.T_PPP;
                                   Kinds.props := [] |}] in
  nm_connection_verify Kinds.registry c
  = FALSE (NM_CONNECTION_ERROR NM_CONNECTION_ERROR_CONNECTION_TYPE_INVALID
             "connection type 'ppp' is not a base type")
  /\ exists s_con,
       nm_connection_get_setting c Kinds.T_CONNECTION = Some s_con.
Proof.
  intros c.
  assert (E : nm_connection_verify Kinds.registry c
              = FALSE (NM_CONNECTION_ERROR
                         NM_CONNECTION_ERROR_CONNECTION_TYPE_INVALID
                         "connection type 'ppp' is not a base type"))
    by reflexivity.
  split; [exact E|].
  destruct (verify_failure_cases _ _ E)
    as [[Hnone _]|(s_con & Hs & _)]; [discriminate|].
  now exists s_con.
Defined.



(** ** More on comparison *)

Section CompareMore.
Context {NMSetting : Type} `{NMSettingClass NMSetting}.

Lemma matched_back (a b : NMConnection NMSetting) flags :
  table_consistent a -> table_consistent b ->
  (forall s s', nm_setting_compare s s' flags
                = nm_setting_compare s' s flags) ->
  Forall (matched_in b flags) (values (settings a)) ->
  g_hash_table_size (settings a) = g_hash_table_size (settings b) ->
  Forall (matched_in a flags) (values (settings b)).
Proof.
  intros Ha Hb Hsym Hab Hsize.
  pose proof (matched_incl_keys Ha Hab) as Hi1.
  assert (Hi2 : incl (keys (settings b)) (keys (settings a))).
  { apply NoDup_length_incl; [exact (proj1 Ha)| |exact Hi1].
    rewrite !keys_length. lia. }
  apply Forall_forall. intros s Hs.
  assert (Hk : In (G_OBJECT_TYPE s) (keys (settings a))).
  { apply Hi2. pose proof (consistent_get_value _ Hb Hs) as Hg.
    apply lookup_In in Hg. unfold keys.
    change (G_OBJECT_TYPE s) with (fst (G_OBJECT_TYPE s, s)).
    now apply in_map. }
  destruct (nm_connection_get_setting a (G_OBJECT_TYPE s)) as [cmp|] eqn:E.
  2:{ apply lookup_None_iff in E. contradiction. }
  exists cmp. split; [exact E|].
  destruct (consistent_get_kind _ Ha E) as [Hkind Hcmp].
  rewrite Forall_forall in Hab.
  destruct (Hab cmp Hcmp) as (cmp' & Hget & Hc).
  rewrite Hkind, (consistent_get_value _ Hb Hs) in Hget.
  injection Hget as <-. now rewrite Hsym.
Qed.

(** X13.  For connections that hold one setting per kind, and setting
    kinds whose comparison is symmetric under the flags, the comparison
    of connections is symmetric: the size test stands in for the scan of
    the second connection against the first. *)
Theorem compare_symmetric (a b : NMConnection NMSetting)
    (flags : NMSettingCompareFlags) :
  table_consistent a -> table_consistent b ->
  (forall s s', nm_setting_compare s s' flags
                = nm_setting_compare s' s flags) ->
  nm_connection_compare (Some a) (Some b) flags
  = nm_connection_compare (Some b) (Some a) flags.
Proof.
  intros Ha Hb Hsym. apply eq_iff_eq_true.
  rewrite !compare_some_some. split; intros [Hall Hsize].
  - split; [|now symmetry]. now apply matched_back.
  - split; [|now symmetry]. apply matched_back; auto.
Qed.

(** X14.  Two connections that compare equal hold settings of the same
    kinds (given one setting per kind in each). *)
Theorem compare_same_kinds (a b : NMConnection NMSetting)
    (flags : NMSettingCompareFlags) :
  table_consistent a -> table_consistent b ->
  nm_connection_compare (Some a) (Some b) flags = true ->
  forall t,
    nm_connection_get_setting a t = None
    <-> nm_connection_get_setting b t = None.
Proof.
  intros Ha Hb Hcmp t. apply compare_some_some in Hcmp.
  destruct Hcmp as [Hall Hsize].
  pose proof (matched_incl_keys Ha Hall) as Hi1.
  assert (Hi2 : incl (keys (settings b)) (keys (settings a))).
  { apply NoDup_length_incl; [exact (proj1 Ha)| |exact Hi1].
    rewrite !keys_length. lia. }
  unfold nm_connection_get_setting. rewrite !lookup_None_iff.
  split; intros Hn Hin; apply Hn; [now apply Hi2|now apply Hi1].
Qed.

(** X15.  A connection that holds one setting per kind compares equal
    to itself, and to any connection with the same table, when each of
    its settings compares equal to itself under the flags. *)
Theorem compare_reflexive (c c' : NMConnection NMSetting)
    (flags : NMSettingCompareFlags) :
  table_consistent c ->
  settings c' = settings c ->
  (forall s, In s (values (settings c)) ->
             nm_setting_compare s s flags = true) ->
  nm_connection_compare (Some c) (Some c) flags = true
  /\ nm_connection_compare (Some c) (Some c') flags = true.
Proof.
  intros Hc Heq Hrefl.
  assert (Hall : Forall (matched_in c flags) (values (settings c))).
  { apply Forall_forall. intros s Hs. exists s.
    split; [now apply consistent_get_value|now apply Hrefl]. }
  split; apply compare_some_some.
  - split; [exact Hall|reflexivity].
  - split; [|now rewrite Heq].
    eapply Forall_impl; [|exact Hall].
    intros s (cmp & Hg & Hcmp). exists cmp.
    unfold nm_connection_get_setting in *. rewrite Heq. auto.
Qed.

End CompareMore.

Lemma kinds_table_consistent (l : list Kinds.Setting) :
  table_consistent (Kinds.connection_of l).
Proof.
  unfold Kinds.connection_of.
  apply fold_add_consistent. split; simpl; constructor.
Qed.

Lemma compare_symmetric_witness :
  let a := Kinds.connection_of [Kinds.s_con "802-3-ethernet"; Kinds.s_wired] in
  let b := Kinds.connection_of [Kinds.s_wired; Kinds.s_con "802-3-ethernet"] in
  nm_connection_compare (Some a) (Some b) 0
  = nm_connection_compare (Some b) (Some a) 0.
Proof.
  intros a b.
  apply (@compare_symmetric _ _ a b 0 (kinds_table_consistent _)
           (kinds_table_consistent _)).
  intros s s'. simpl. apply props_eqb_sym.
Defined.

Lemma compare_same_kinds_witness :
  let a := Kinds.connection_of [Kinds.s_con "802-3-ethernet"; Kinds.s_wired] in
  let b := Kinds.connection_of [Kinds.s_wired; Kinds.s_con "802-3-ethernet"] in
  nm_connection_get_setting a Kinds.T_PPP = None
  <-> nm_connection_get_setting b Kinds.T_PPP = None.
Proof.
  intros a b.
  exact (@compare_same_kinds _ _ a b 0 (kinds_table_consistent _)
           (kinds_table_consistent _) eq_refl Kinds.T_PPP).
Defined.

Lemma compare_reflexive_witness :
  let c := Kinds.connection_of [Kinds.s_con "802-3-ethernet"; Kinds.s_wired] in
  nm_connection_compare (Some c) (Some c) 0 = true
  /\ nm_connection_compare (Some c)
       (Some {| self := 9; settings := settings c; path := Some "/p" |}) 0
     = true.
Proof.
  intros c.
  apply (@compare_reflexive _ _ c
           {| self := 9; settings := settings c; path := Some "/p" |}
           0 (kinds_table_consistent _) eq_refl).
  intros s _. simpl. apply props_eqb_refl.
Defined.

(** ** More on differences *)

Section DiffMore.
Context {NMSetting : Type} `{NMSettingClass NMSetting}.

(** An entry of the table of differences: a table that is not empty,
    under the name of a setting of [l]. *)
Notation entry_from l :=
  (fun kv : string * DiffHash =>
     snd kv <> []
     /\ exists s : NMSetting, In s l /\ nm_setting_get_name s = fst kv).

Lemma setting_diff_not_empty (a : NMSetting) b flags invert results r :
  (forall t, results = Some t -> t <> []) ->
  nm_setting_diff a b flags invert results = Some r -> r <> [].
Proof.
  unfold nm_setting_diff. intros Hres.
  destruct results as [t|].
  - intros [= <-] Hnil. apply record_differences_nil in Hnil.
    destruct Hnil as [_ Ht]. exact (Hres t eq_refl Ht).
  - destruct (Nat.eqb _ 0) eqn:E; [discriminate|].
    intros [= <-] Hnil. apply Nat.eqb_neq in E. apply E.
    now apply size_0_nil.
Qed.

Lemma diff_one_connection_entries (a : NMConnection NMSetting) b flags
    invert (l : list NMSetting) (diffs : DiffsHash) :
  incl (values (settings a)) l ->
  Forall (entry_from l) diffs ->
  Forall (entry_from l) (diff_one_connection a b flags invert diffs).
Proof.
  unfold diff_one_connection.
  generalize (values (settings a)) as scanned. intros scanned.
  revert diffs. induction scanned as [|s rest IH]; intros diffs Hincl Hd;
    simpl; [exact Hd|].
  apply IH; [intros x Hx; apply Hincl; now right|].
  unfold diff_one_setting.
  destruct (nm_setting_diff s _ flags invert
              (g_hash_table_lookup diffs (nm_setting_get_name s)))
    as [r|] eqn:E; [|exact Hd].
  assert (Hr : r <> []).
  { eapply setting_diff_not_empty; [|exact E]. intros t Ht.
    apply lookup_In in Ht. rewrite Forall_forall in Hd.
    exact (proj1 (Hd _ Ht)). }
  assert (Hins : Forall (entry_from l)
                   (g_hash_table_insert diffs (nm_setting_get_name s) r)).
  { apply Forall_forall. intros kv Hin. apply insert_In in Hin.
    destruct Hin as [->|Hin].
    - split; [exact Hr|]. exists s. split; [|reflexivity].
      apply Hincl. now left.
    - rewrite Forall_forall in Hd. now apply Hd. }
  now destruct (g_hash_table_lookup diffs (nm_setting_get_name s)).
Qed.

(** X16.  The table that [nm_connection_diff] hands out is never
    empty; each of its entries is under the name of a setting of one of
    the two connections, and holds at least one property. *)
Theorem diff_result_entries (a : NMConnection NMSetting)
    (b : option (NMConnection NMSetting)) (flags : NMSettingCompareFlags) :
  match snd (nm_connection_diff a b flags) with
  | None => True
  | Some diffs =>
      diffs <> []
      /\ forall name table,
           In (name, table) diffs ->
           table <> []
           /\ exists s,
                nm_setting_get_name s = name
                /\ (In s (values (settings a))
                    \/ exists b', b = Some b'
                                  /\ In s (values (settings b')))
  end.
Proof.
  unfold nm_connection_diff.
  destruct (match b with Some b' => self a =? self b' | None => false end);
    [exact I|].
  destruct (Nat.eqb (g_hash_table_size (merged_diffs a b flags)) 0) eqn:E;
    cbn [snd]; [exact I|].
  apply Nat.eqb_neq in E. split; [intros Hnil; apply E; now rewrite Hnil|].
  set (l := (values (settings a)
             ++ match b with
                | Some b' => values (settings b')
                | None => []
                end)%list).
  assert (Hall : Forall (entry_from l) (merged_diffs a b flags)).
  { unfold merged_diffs.
    assert (H1 : Forall (entry_from l)
                   (diff_one_connection a b flags false g_hash_table_new)).
    { apply diff_one_connection_entries; [|constructor].
      intros x Hx. unfold l. apply in_or_app. now left. }
    destruct b as [b'|]; [|exact H1].
    apply diff_one_connection_entries; [|exact H1].
    intros x Hx. unfold l. apply in_or_app. now right. }
  intros name table Hin. rewrite Forall_forall in Hall.
  destruct (Hall _ Hin) as [Ht (s & Hs & Hname)].
  split; [exact Ht|]. exists s. split; [exact Hname|].
  unfold l in Hs. apply in_app_or in Hs. destruct Hs as [Hs|Hs]; [now left|].
  right. destruct b as [b'|]; [|destruct Hs]. now exists b'.
Qed.

End DiffMore.

(** ** More on secrets *)

Section SecretsMore.
Context {NMSetting : Type} `{NMSettingClass NMSetting}.

Lemma setting_written_frame reg (c : NMConnection NMSetting) name s :
  self (setting_written reg c name s) = self c
  /\ path (setting_written reg c name s) = path c.
Proof. split; reflexivity. Qed.

Lemma update_secrets_all_frame reg entries :
  forall c : NMConnection NMSetting,
  self (fst (update_secrets_all reg c entries)) = self c
  /\ path (fst (update_secrets_all reg c entries)) = path c.
Proof.
  induction entries as [|[name tmp] rest IH]; intros c; simpl; [auto|].
  destruct (nm_connection_get_setting_by_name reg c name) as [setting|];
    [|auto].
  destruct (nm_setting_update_secrets setting tmp) as [setting' success].
  destruct success; [|auto].
  destruct (IH (setting_written reg c name setting')) as [A B].
  rewrite A, B. auto.
Qed.

(** X17.  Updating secrets, for one setting or for all, with success
    or not, leaves the kinds that the connection holds, their order in
    the table, the object and its path as they were: only the settings
    under those kinds change. *)
Theorem update_secrets_keeps_kinds (reg : Registry)
    (c : NMConnection NMSetting) (setting_name : option string)
    (secrets : list (string * gpointer)) :
  let c' := fst (fst (nm_connection_update_secrets reg c setting_name
                        secrets)) in
  keys (settings c') = keys (settings c)
  /\ self c' = self c /\ path c' = path c.
Proof.
  unfold nm_connection_update_secrets. destruct setting_name as [name|].
  - destruct (nm_connection_get_setting_by_name reg c name)
      as [setting|] eqn:E; [|auto].
    destruct (nm_setting_update_secrets setting _) as [setting' success].
    cbn [fst]. split; [|split; reflexivity].
    now apply setting_written_keys with (setting := setting).
  - pose proof (update_secrets_all_keys reg secrets c) as K.
    pose proof (update_secrets_all_frame reg secrets c) as [A B].
    destruct (update_secrets_all reg c secrets) as [c1 success].
    cbn [fst] in *. auto.
Qed.

(** X18.  When [nm_connection_need_secrets] names a setting, the
    connection holds a setting of that name which reports the hints
    returned, and no setting of the connection that needs secrets has a
    lower priority. *)
Theorem need_secrets_sound (reg : Registry) (c : NMConnection NMSetting)
    (name : string) (hints : list string) :
  nm_connection_need_secrets reg c = Some (name, hints) ->
  exists s,
    In s (values (settings c))
    /\ nm_setting_get_name s = name
    /\ nm_setting_need_secrets s = Some hints
    /\ forall t, In t (values (settings c)) ->
                 nm_setting_need_secrets t <> None ->
                 _get_setting_priority reg s <= _get_setting_priority reg t.
Proof.
  unfold nm_connection_need_secrets. rewrite first_needing_secrets_find.
  destruct (fold_insert_sorted reg (values (settings c))
              (acc := []) (SSorted_nil _)) as (Hasc & Hperm & _ & _).
  fold (settings_in_priority_order reg c) in Hasc, Hperm.
  rewrite app_nil_r in Hperm.
  assert (Hperm' : Permutation (settings_in_priority_order reg c)
                     (values (settings c))).
  { rewrite Hperm. symmetry. apply Permutation_rev. }
  destruct (find needs_secrets (settings_in_priority_order reg c))
    as [f|] eqn:Ef; [|discriminate].
  destruct (nm_setting_need_secrets f) as [h|] eqn:Eh; [|discriminate].
  intros [= <- <-]. exists f.
  pose proof (find_some _ _ Ef) as [Hin _].
  split; [exact (Permutation_in _ Hperm' Hin)|].
  split; [reflexivity|]. split; [exact Eh|].
  intros t Ht Hneed.
  apply (find_ascending_least reg Hasc Ef).
  - exact (Permutation_in _ (Permutation_sym Hperm') Ht).
  - now apply needs_secrets_true.
Qed.

(** X19.  [setting_priority_compare] orders settings by priority: it
    is 0 exactly for equal priorities, negative exactly when the first
    priority is lower, and swapping the arguments negates it. *)
Theorem setting_priority_compare_spec (reg : Registry) (a b : NMSetting) :
  (setting_priority_compare reg a b = 0%Z
   <-> _get_setting_priority reg a = _get_setting_priority reg b)
  /\ (setting_priority_compare reg a b = (-1)%Z
      <-> _get_setting_priority reg a < _get_setting_priority reg b)
  /\ (setting_priority_compare reg a b = 1%Z
      <-> _get_setting_priority reg b < _get_setting_priority reg a)
  /\ setting_priority_compare reg b a
     = (- setting_priority_compare reg a b)%Z.
Proof.
  unfold setting_priority_compare.
  destruct (_get_setting_priority reg a <? _get_setting_priority reg b)
    eqn:E1;
    destruct (_get_setting_priority reg a =? _get_setting_priority reg b)
      eqn:E2;
    destruct (_get_setting_priority reg b <? _get_setting_priority reg a)
      eqn:E3;
    destruct (_get_setting_priority reg b =? _get_setting_priority reg a)
      eqn:E4;
    rewrite ?N.ltb_lt, ?N.ltb_ge, ?N.eqb_eq, ?N.eqb_neq in *;
    try lia;
    repeat split; intros; try lia; try discriminate.
Qed.

End SecretsMore.

Lemma need_secrets_sound_witness :
  exists s,
    In s (values (settings
            (Kinds.connection_of
               [Kinds.needing Kinds.T_PPP "password";
                Kinds.needing Kinds.T_WIRED "pin"])))
    /\ nm_setting_get_name s = "802-3-ethernet"%string
    /\ nm_setting_need_secrets s = Some ["pin"%string].
Proof.
  assert (E : nm_connection_need_secrets Kinds.registry
                (Kinds.connection_of
                   [Kinds.needing Kinds.T_PPP "password";
                    Kinds.needing Kinds.T_WIRED "pin"])
              = Some ("802-3-ethernet"%string, ["pin"%string]))
    by reflexivity.
  destruct (need_secrets_sound _ _ E) as (s & A & B & C & _).
  exists s. auto.
Defined.

(** ** Serialization *)

Section ToHashFacts.
Context {NMSetting : Type} `{NMSettingClass NMSetting}.

Notation step flags :=
  (fun (ret : ConnectionHash) setting =>
     match nm_setting_to_hash setting flags with
     | Some setting_hash =>
         g_hash_table_insert ret (nm_setting_get_name setting) setting_hash
     | None => ret
     end).

Lemma to_hash_fold_nil flags (l : list NMSetting) :
  forall acc : ConnectionHash,
  fold_left (step flags) l acc = [] <->
  acc = [] /\ Forall (fun s => nm_setting_to_hash s flags = None) l.
Proof.
  induction l as [|s l IH]; intros acc; simpl.
  - split; [auto|tauto].
  - rewrite IH. destruct (nm_setting_to_hash s flags) eqn:E.
    + split.
      * intros [Hins _]. exfalso. exact (insert_not_nil _ _ _ Hins).
      * intros [_ Hall]. inversion Hall; congruence.
    + split.
      * intros [Ha Hl]. split; [exact Ha|now constructor].
      * intros [Ha Hall]. inversion Hall; subst. auto.
Qed.

Lemma to_hash_fold_entries flags (all l : list NMSetting) :
  forall acc : ConnectionHash,
  incl l all ->
  Forall (fun kv => exists s, In s all /\ nm_setting_get_name s = fst kv
                              /\ nm_setting_to_hash s flags = Some (snd kv))
    acc ->
  Forall (fun kv => exists s, In s all /\ nm_setting_get_name s = fst kv
                              /\ nm_setting_to_hash s flags = Some (snd kv))
    (fold_left (step flags) l acc).
Proof.
  induction l as [|s l IH]; intros acc Hincl Hacc; simpl; [exact Hacc|].
  apply IH; [intros x Hx; apply Hincl; now right|].
  destruct (nm_setting_to_hash s flags) as [h|] eqn:E; [|exact Hacc].
  apply Forall_forall. intros kv Hin. apply insert_In in Hin.
  destruct Hin as [->|Hin].
  - exists s. split; [apply Hincl; now left|auto].
  - rewrite Forall_forall in Hacc. now apply Hacc.
Qed.

(** X20.  [nm_connection_to_hash] returns NULL exactly when every
    setting is serialized to NULL (so also for a connection without
    settings) and never an empty table; each entry of the table is the
    table of a setting of the connection, under that setting's name. *)
Theorem to_hash_spec (c : NMConnection NMSetting)
    (flags : NMSettingHashFlags) :
  (nm_connection_to_hash c flags = None <->
   Forall (fun s => nm_setting_to_hash s flags = None)
     (values (settings c)))
  /\ forall hash,
       nm_connection_to_hash c flags = Some hash ->
       hash <> []
       /\ forall name h,
            In (name, h) hash ->
            exists s,
              In s (values (settings c))
              /\ nm_setting_get_name s = name
              /\ nm_setting_to_hash s flags = Some h.
Proof.
  unfold nm_connection_to_hash.
  match goal with
  | |- context [g_hash_table_size ?r] => set (ret := r)
  end.
  assert (Hnil : ret = [] <->
                 Forall (fun s => nm_setting_to_hash s flags = None)
                   (values (settings c))).
  { unfold ret. rewrite to_hash_fold_nil. unfold g_hash_table_new. tauto. }
  destruct (g_hash_table_size ret <? 1)%nat eqn:E.
  - apply Nat.ltb_lt in E.
    assert (Hret : ret = []).
    { apply size_0_nil. lia. }
    split; [split; [intros _; now apply Hnil|reflexivity]|].
    intros hash Hd. discriminate Hd.
  - apply Nat.ltb_ge in E.
    assert (Hret : ret <> []).
    { intros Hz. rewrite Hz in E. simpl in E. lia. }
    split.
    + split; [intros Hd; discriminate Hd|].
      intros Hall. exfalso. apply Hret. now apply Hnil.
    + intros hash [= <-]. split; [exact Hret|].
      intros name h Hin.
      pose proof (@to_hash_fold_entries flags (values (settings c))
                    (values (settings c)) g_hash_table_new
                    (incl_refl _) (Forall_nil _)) as Hall.
      rewrite Forall_forall in Hall.
      exact (Hall _ Hin).
Qed.

End ToHashFacts.

(** ** Path, secrets clearing, duplication, the type setting *)

Section MoreFacts.
Context {NMSetting : Type} `{NMSettingClass NMSetting}
  `{NMSettingMore NMSetting}.

Lemma lookup_map_values {K V : Type} `{KeyEq K} (f : V -> V)
    (h : GHashTable K V) k :
  g_hash_table_lookup (map (fun kv => (fst kv, f (snd kv))) h) k
  = option_map f (g_hash_table_lookup h k).
Proof.
  induction h as [|[k' v'] t IH]; simpl; [reflexivity|].
  destruct (key_eqb k' k); [reflexivity|exact IH].
Qed.

Lemma keys_map_values {K V : Type} (f : V -> V) (h : GHashTable K V) :
  keys (map (fun kv => (fst kv, f (snd kv))) h) = keys h.
Proof. unfold keys. rewrite map_map. reflexivity. Qed.

(** X21.  Clearing the secrets, with or without a function that
    selects them, always emits "secrets-cleared" once, also for a
    connection without settings; the connection holds the same kinds
    afterwards, and under each kind the setting that was there, with its
    secrets cleared. *)
Theorem clear_secrets_spec (c : NMConnection NMSetting)
    (func : NMSetting -> string -> N -> bool) :
  let r := nm_connection_clear_secrets c in
  let r' := nm_connection_clear_secrets_with_flags c func in
  snd r = [SECRETS_CLEARED] /\ snd r' = [SECRETS_CLEARED]
  /\ keys (settings (fst r)) = keys (settings c)
  /\ keys (settings (fst r')) = keys (settings c)
  /\ (forall t,
        nm_connection_get_setting (fst r) t
        = option_map nm_setting_clear_secrets
            (nm_connection_get_setting c t))
  /\ (forall t,
        nm_connection_get_setting (fst r') t
        = option_map (fun s => nm_setting_clear_secrets_with_flags s func)
            (nm_connection_get_setting c t))
  /\ self (fst r) = self c /\ path (fst r) = path c
  /\ self (fst r') = self c /\ path (fst r') = path c.
Proof.
  unfold nm_connection_clear_secrets,
    nm_connection_clear_secrets_with_flags, nm_connection_get_setting.
  cbn [fst snd settings set_settings self path].
  split; [reflexivity|]. split; [reflexivity|].
  split; [apply keys_map_values|].
  split; [apply (keys_map_values
                   (fun s => nm_setting_clear_secrets_with_flags s func))|].
  split; [intros t; apply lookup_map_values|].
  split; [intros t;
          apply (lookup_map_values
                   (fun s => nm_setting_clear_secrets_with_flags s func))|].
  repeat split.
Qed.



(** X23.  On a connection that passes verification the functions that
    assert on the type setting return: [_get_type_setting] gives a base
    type, the setting found under the name in the connection setting's
    type; [nm_connection_is_type] holds exactly for that name.  On a
    connection without connection setting they abort. *)
Theorem type_setting_of_verified (reg : Registry)
    (c : NMConnection NMSetting) :
  (nm_connection_verify reg c = TRUE ->
   exists s_con ctype base,
     nm_connection_get_setting c NM_TYPE_SETTING_CONNECTION = Some s_con
     /\ nm_setting_connection_get_connection_type s_con = Some ctype
     /\ _get_type_setting reg c = Returned base
     /\ nm_connection_get_setting_by_name reg c ctype = Some base
     /\ _is_setting_base_type reg base = true
     /\ nm_connection_get_virtual_iface_name reg c
        = Returned (nm_setting_get_virtual_iface_name base)
     /\ forall t,
          nm_connection_is_type c t = Returned true <-> t = ctype)
  /\ (nm_connection_get_setting c NM_TYPE_SETTING_CONNECTION = None ->
      _get_type_setting reg c = AssertFailed
      /\ nm_connection_get_virtual_iface_name reg c = AssertFailed
      /\ (forall t, nm_connection_is_type c t = AssertFailed)
      /\ nm_connection_get_uuid c = None
      /\ nm_connection_get_id c = None).
Proof.
  split.
  - intros Hv.
    assert (Hparts : exists s_con ctype base,
              nm_connection_get_setting c NM_TYPE_SETTING_CONNECTION
              = Some s_con
              /\ nm_setting_connection_get_connection_type s_con
                 = Some ctype
              /\ nm_connection_get_setting_by_name reg c ctype = Some base
              /\ _is_setting_base_type reg base = true).
    { unfold nm_connection_verify, nm_connection_get_setting_connection
        in Hv.
      destruct (nm_connection_get_setting c NM_TYPE_SETTING_CONNECTION)
        as [s_con|] eqn:E1; [|discriminate].
      destruct (verify_settings _ _); [|discriminate].
      destruct (nm_setting_connection_get_connection_type s_con)
        as [ctype|] eqn:E2; [|discriminate].
      destruct (nm_connection_get_setting_by_name reg c ctype)
        as [base|] eqn:E3; [|discriminate].
      destruct (_is_setting_base_type reg base) eqn:Eb; [|discriminate].
      exists s_con, ctype, base. auto. }
    destruct Hparts as (s_con & ctype & base & Hs & Ht & Hb & Hbase).
    exists s_con, ctype, base.
    unfold _get_type_setting, nm_connection_get_virtual_iface_name,
      _get_type_setting, nm_connection_is_type,
      nm_connection_get_setting_connection.
    rewrite Hs, Ht, Hb. repeat split; auto.
    + intros [= Heq]. apply String.eqb_eq in Heq. now symmetry.
    + intros ->. now rewrite String.eqb_refl.
  - intros Hnone.
    unfold _get_type_setting, nm_connection_get_virtual_iface_name,
      _get_type_setting, nm_connection_is_type, nm_connection_get_uuid,
      nm_connection_get_id, nm_connection_get_setting_connection.
    rewrite Hnone. repeat split.
Qed.

(** X24.  The path is no part of what is verified, compared,
    serialized or asked for secrets: connections with the same table
    give the same results, and setting the path keeps the table. *)
Theorem path_not_validated (reg : Registry) (c c' : NMConnection NMSetting)
    (p : option string) :
  nm_connection_get_path (nm_connection_set_path c p) = p
  /\ settings (nm_connection_set_path c p) = settings c
  /\ (settings c' = settings c ->
      nm_connection_verify reg c' = nm_connection_verify reg c
      /\ nm_connection_need_secrets reg c'
         = nm_connection_need_secrets reg c
      /\ (forall flags,
            nm_connection_to_hash c' flags = nm_connection_to_hash c flags)
      /\ (forall other flags,
            nm_connection_compare (Some c') other flags
            = nm_connection_compare (Some c) other flags
            /\ nm_connection_compare other (Some c') flags
               = nm_connection_compare other (Some c) flags)).
Proof.
  split; [now destruct p|]. split; [reflexivity|].
  intros Heq. split; [now apply verify_depends_on_settings|].
  split.
  { unfold nm_connection_need_secrets, settings_in_priority_order.
    now rewrite Heq. }
  split.
  { intros flags. unfold nm_connection_to_hash. now rewrite Heq. }
  intros [other|] flags; [|split; reflexivity].
  unfold nm_connection_compare, nm_connection_get_setting.
  now rewrite Heq.
Qed.

End MoreFacts.


Lemma type_setting_of_verified_witness :
  let c := Kinds.connection_of [Kinds.s_con "802-3-ethernet"; Kinds.s_wired] in
  exists base,
    _get_type_setting Kinds.registry c = Returned base
    /\ _is_setting_base_type Kinds.registry base = true
    /\ (nm_connection_is_type c "802-3-ethernet" = Returned true
        <-> "802-3-ethernet"%string = "802-3-ethernet"%string).
Proof.
  intros c.
  assert (Hv : nm_connection_verify Kinds.registry c = TRUE)
    by reflexivity.
  destruct (proj1 (type_setting_of_verified Kinds.registry c) Hv)
    as (s_con & ctype & base & A & B & C & D & E & F & G).
  exists base. split; [exact C|]. split; [exact E|].
  assert (Hc : ctype = "802-3-ethernet"%string).
  { injection A as <-. now injection B as <-. }
  rewrite <- Hc at 3. apply G.
Defined.

Lemma path_not_validated_witness :
  let c := Kinds.connection_of [Kinds.s_con "802-3-ethernet"; Kinds.s_wired] in
  nm_connection_verify Kinds.registry
    (nm_connection_set_path c (Some "/p"%string))
  = nm_connection_verify Kinds.registry c.
Proof.
  intros c.
  assert (Hs : settings (nm_connection_set_path c (Some "/p"%string))
               = settings c) by reflexivity.
  exact (proj1 (proj2 (proj2
           (path_not_validated Kinds.registry c
              (nm_connection_set_path c (Some "/p"%string)) None))
           Hs)).
Defined.

Lemma registered_names_no_dangling_witness :
  Ownership.dangling
    (Ownership.hash_to_connection Kinds.registry
       {| Ownership.table :=
            [(Kinds.T_WIRED,
              {| Ownership.address := 0%nat;
                 Ownership.state := Kinds.s_wired_default |})];
          Ownership.allocated := 1;
          Ownership.unreffed := [] |}
       [("connection"%string, Kinds.props (Kinds.s_con "802-3-ethernet"));
        ("802-3-ethernet"%string, Kinds.props Kinds.s_wired);
        ("802-3-ethernet"%string, [])])
  = false.
Proof.
  apply registered_names_no_dangling.
  - repeat split; simpl.
    + repeat constructor. intros [].
    + intros a [<-|[]]. lia.
    + destruct H.
    + destruct H.
  - intros name h [[= <- <-]|[[= <- <-]|[[= <- <-]|[]]]]; discriminate.
Defined.
